(** * The browser-local blog store of [blog-crud.js]

  A shallow embedding of the IIFE in [src/blog-crud.js]: the module
  variables [blogs], [recentlyDeleted] and [undoTimeout], the
  [localStorage] slot under [STORAGE_KEY], the parts of the DOM the
  script reads and writes, the clock and the timer queue are the fields
  of one [State]; every function of the script is a computation in a
  small state-and-exception monad over it.

  Conventions of the model.
  - A JavaScript number is an integer ([Int z]) or [NaN]; fractions and
    the infinities are not represented.
  - A string is a sequence of code units below 256.
  - The text kept in [localStorage] is represented by what [JSON.parse]
    makes of it. Whether [setItem] takes a text or throws (quota exceeded,
    storage blocked) is the environment's choice, the field [accepts] of
    the state; the event [Storage] changes it.
  - The clock does not advance while a handler runs; it advances between
    events ([Elapse]). *)

From Stdlib Require Import ZArith String Ascii Lia DecimalString.
From Stdlib Require Import DecimalPos DecimalZ.
From stdpp Require Import base list strings.

(** ** JavaScript primitives used by the script *)

Module Js.

(** Numbers, as far as the script's indices need them. *)
Inductive num : Type :=
| Int (z : Z)
| NaN.

(** [a < b] and [a >= b]: every comparison with [NaN] is false. *)
Definition lt (a b : num) : bool :=
  match a, b with
  | Int x, Int y => (x <? y)%Z
  | _, _ => false
  end.

Definition ge (a b : num) : bool :=
  match a, b with
  | Int x, Int y => (y <=? x)%Z
  | _, _ => false
  end.

(** [Math.min(a, b)]: [NaN] if either argument is. *)
Definition min (a b : num) : num :=
  match a, b with
  | Int x, Int y => Int (Z.min x y)
  | _, _ => NaN
  end.

(** ToIntegerOrInfinity of ECMA-262, on the numbers of the model. *)
Definition toInteger (n : num) : Z :=
  match n with
  | Int z => z
  | NaN => 0%Z
  end.

(** [arr.length] as a number. *)
Definition len {A} (l : list A) : Z := Z.of_nat (length l).

(** [arr[i]]: [None] stands for [undefined] (no such own property). *)
Definition get {A} (l : list A) (i : num) : option A :=
  match i with
  | Int z => if (0 <=? z)%Z then l !! Z.to_nat z else None
  | NaN => None
  end.

(** The start position [Array.prototype.splice] computes from its first
    argument: relative to the end when negative, clamped to the array. *)
Definition spliceStart {A} (l : list A) (start : num) : Z :=
  let rel := toInteger start in
  if (rel <? 0)%Z then Z.max (len l + rel) 0 else Z.min rel (len l).

(** [arr.splice(start, deleteCount, ...items)], the array afterwards. *)
Definition splice {A} (l : list A) (start : num) (deleteCount : Z)
    (items : list A) : list A :=
  let a := spliceStart l start in
  let dc := Z.min (Z.max deleteCount 0) (len l - a) in
  take (Z.to_nat a) l ++ items ++ drop (Z.to_nat (a + dc)) l.

(** [arr.unshift(x)]. *)
Definition unshift {A} (x : A) (l : list A) : list A := x :: l.

(** The double quote, as a character and as a string. *)
Definition dquote : ascii := ascii_of_nat 34.
Definition dq : string := String dquote EmptyString.
Definition newline : string := String (ascii_of_nat 10) EmptyString.

(** [s.replace(/c/g, r)] for a one-character pattern. *)
Fixpoint replaceAll (c : ascii) (r : string) (s : string) : string :=
  match s with
  | EmptyString => EmptyString
  | String a t =>
      if Ascii.eqb a c then r +:+ replaceAll c r t
      else String a (replaceAll c r t)
  end.

(** White space removed by [trim]: TAB, LF, VT, FF, CR, SP and NBSP. *)
Definition isSpace (a : ascii) : bool :=
  let n := N_of_ascii a in
  ((9 <=? n) && (n <=? 13) || (n =? 32) || (n =? 160))%N.

Fixpoint trimStart (s : string) : string :=
  match s with
  | EmptyString => EmptyString
  | String a t => if isSpace a then trimStart t else s
  end.

Fixpoint trimEnd (s : string) : string :=
  match s with
  | EmptyString => EmptyString
  | String a t =>
      match trimEnd t with
      | EmptyString => if isSpace a then EmptyString else String a EmptyString
      | t' => String a t'
      end
  end.

Definition trim (s : string) : string := trimEnd (trimStart s).

(** [toLowerCase] on code units below 256. *)
Definition lowerChar (a : ascii) : ascii :=
  let n := N_of_ascii a in
  if ((65 <=? n) && (n <=? 90)
      || (192 <=? n) && (n <=? 222) && negb (n =? 215))%N
  then ascii_of_N (n + 32) else a.

Fixpoint toLowerCase (s : string) : string :=
  match s with
  | EmptyString => EmptyString
  | String a t => String (lowerChar a) (toLowerCase t)
  end.

(** [s.includes(sub)]. *)
Fixpoint includes (s sub : string) : bool :=
  String.prefix sub s
  || match s with
     | EmptyString => false
     | String _ t => includes t sub
     end.

(** [s.slice(0, n)] for [n >= 0]. *)
Definition slice0 (n : nat) (s : string) : string := String.substring 0 n s.

(** [String(n)] for an integer. *)
Definition numToString (z : Z) : string :=
  NilZero.string_of_int (Z.to_int z).

(** Truthiness of a string: the empty string is falsy. *)
Definition truthy (s : string) : bool :=
  match s with
  | EmptyString => false
  | _ => true
  end.

End Js.

(** ** The script *)

Module BlogCrud.

Local Open Scope string_scope.

(** *** Data *)

(** A post record, with the fields in the order the script writes them.
    [image] is [None] for the [null] that [getAttribute('src')] gives on
    an [img] without a source. *)
Record Post : Type := mkPost {
  id : Z;
  title : string;
  image : option string;
  content : string;
  detailUrl : string
}.

(** What an element of [blogs] can be: a record, or the [undefined] that
    [blogs[index]] yields for a missing property, or the [null] that
    [JSON.stringify] turns it into. *)
Inductive Entry : Type :=
| Undefined
| Null
| Rec (p : Post).

(** [recentlyDeleted], when not [null]: [{ blog, index }]. *)
Record Deleted : Type := mkDeleted {
  blog : Entry;
  index : Js.num
}.

(** The item under [STORAGE_KEY], by what [JSON.parse] makes of it. *)
Inductive Stored : Type :=
| NoItem                     (* getItem gives null *)
| Unparsable                 (* JSON.parse throws *)
| Falsy                      (* null, false, 0 or the empty string *)
| NonArray                   (* any other value that is not an array *)
| Array (l : list Entry).

(** What [load()] returns. *)
Inductive Loaded : Type :=
| LoadedNull
| LoadedOther
| LoadedArray (l : list Entry).

(** The argument of [addBlog]; [None] is an omitted field. *)
Record Fields : Type := mkFields {
  fTitle : option string;
  fImage : option string;
  fContent : option string;
  fDetailUrl : option string
}.

(** An anchor and a [.blog-card] of the static markup, by what the seed
    extractor reads of them. *)
Record Anchor : Type := mkAnchor {
  innerText : string;
  readMore : bool;                 (* classList.contains('read-more') *)
  href : option string             (* getAttribute('href') *)
}.

Record Card : Type := mkCard {
  img : option (option string);    (* first img, and its src attribute *)
  heading : option string;         (* innerText of the first h1..h4 *)
  para : option string;            (* innerText of the first p *)
  anchors : list Anchor
}.

(** The [#undoMessage] element. *)
Record UndoBox : Type := mkUndoBox {
  innerHTML : string;
  display : string
}.

(** A scheduled [setTimeout] callback; the script schedules one kind. *)
Record Timer : Type := mkTimer {
  handle : nat;
  due : Z
}.

Record State : Type := mkState {
  blogs : list Entry;
  recentlyDeleted : option Deleted;
  undoTimeout : option nat;
  storage : Stored;
  now : Z;                             (* Date.now() *)
  timers : list Timer;
  nextHandle : nat;
  blogList : option (list Card);       (* #blogList and its static cards *)
  listView : list string;              (* innerHTML of the rendered cards *)
  undoMessage : option UndoBox;        (* #undoMessage, if present *)
  singleBlog : option string;          (* #singleBlog's innerHTML, if present *)
  accepts : list Entry -> bool         (* whether setItem takes this list *)
}.

Definition set_blogs (v : list Entry) (s : State) : State :=
  mkState v (recentlyDeleted s) (undoTimeout s) (storage s) (now s)
    (timers s) (nextHandle s) (blogList s) (listView s) (undoMessage s)
    (singleBlog s) (accepts s).

Definition set_recentlyDeleted (v : option Deleted) (s : State) : State :=
  mkState (blogs s) v (undoTimeout s) (storage s) (now s)
    (timers s) (nextHandle s) (blogList s) (listView s) (undoMessage s)
    (singleBlog s) (accepts s).

Definition set_undoTimeout (v : option nat) (s : State) : State :=
  mkState (blogs s) (recentlyDeleted s) v (storage s) (now s)
    (timers s) (nextHandle s) (blogList s) (listView s) (undoMessage s)
    (singleBlog s) (accepts s).

Definition set_storage (v : Stored) (s : State) : State :=
  mkState (blogs s) (recentlyDeleted s) (undoTimeout s) v (now s)
    (timers s) (nextHandle s) (blogList s) (listView s) (undoMessage s)
    (singleBlog s) (accepts s).

Definition set_now (v : Z) (s : State) : State :=
  mkState (blogs s) (recentlyDeleted s) (undoTimeout s) (storage s) v
    (timers s) (nextHandle s) (blogList s) (listView s) (undoMessage s)
    (singleBlog s) (accepts s).

Definition set_timers (v : list Timer) (s : State) : State :=
  mkState (blogs s) (recentlyDeleted s) (undoTimeout s) (storage s) (now s)
    v (nextHandle s) (blogList s) (listView s) (undoMessage s)
    (singleBlog s) (accepts s).

Definition set_nextHandle (v : nat) (s : State) : State :=
  mkState (blogs s) (recentlyDeleted s) (undoTimeout s) (storage s) (now s)
    (timers s) v (blogList s) (listView s) (undoMessage s)
    (singleBlog s) (accepts s).

Definition set_listView (v : list string) (s : State) : State :=
  mkState (blogs s) (recentlyDeleted s) (undoTimeout s) (storage s) (now s)
    (timers s) (nextHandle s) (blogList s) v (undoMessage s)
    (singleBlog s) (accepts s).

Definition set_undoMessage (v : option UndoBox) (s : State) : State :=
  mkState (blogs s) (recentlyDeleted s) (undoTimeout s) (storage s) (now s)
    (timers s) (nextHandle s) (blogList s) (listView s) v
    (singleBlog s) (accepts s).

Definition set_singleBlog (v : option string) (s : State) : State :=
  mkState (blogs s) (recentlyDeleted s) (undoTimeout s) (storage s) (now s)
    (timers s) (nextHandle s) (blogList s) (listView s) (undoMessage s)
    v (accepts s).

Definition set_accepts (v : list Entry -> bool) (s : State) : State :=
  mkState (blogs s) (recentlyDeleted s) (undoTimeout s) (storage s) (now s)
    (timers s) (nextHandle s) (blogList s) (listView s) (undoMessage s)
    (singleBlog s) v.

(** *** Computations: state, and an exception that aborts the handler *)

Inductive Outcome (A : Type) : Type :=
| Returned (a : A)
| Threw.
Arguments Returned {A} a.
Arguments Threw {A}.

Definition M (A : Type) : Type := State -> Outcome A * State.

Definition ret {A} (a : A) : M A := fun s => (Returned a, s).

Definition bind {A B} (m : M A) (k : A -> M B) : M B :=
  fun s =>
    match m s with
    | (Returned a, s') => k a s'
    | (Threw, s') => (Threw, s')
    end.

Definition throw {A} : M A := fun s => (Threw, s).

Definition gets {A} (f : State -> A) : M A := fun s => (Returned (f s), s).

Definition modify (f : State -> State) : M unit :=
  fun s => (Returned tt, f s).

Declare Scope js_scope.
Delimit Scope js_scope with js.
Notation "'let*' x ':=' m 'in' k" := (bind m (fun x => k))
  (at level 10, x name, m at level 100, k at level 200) : js_scope.
Notation "m ';;' k" := (bind m (fun _ => k))
  (at level 100, k at level 200, right associativity) : js_scope.
Local Open Scope js_scope.

(** The state a handler leaves behind, whether it returned or threw. *)
Definition exec {A} (m : M A) (s : State) : State := snd (m s).

(** *** Utilities (lines 181-195) *)

Definition truncate (s : string) (n : nat) : string :=
  if (n <? String.length s)%nat then Js.slice0 n s +:+ "..." else s.

Definition escapeHtml (str : string) : string :=
  if negb (Js.truthy str) then EmptyString
  else
    Js.replaceAll ">" "&gt;"
      (Js.replaceAll "<" "&lt;"
         (Js.replaceAll Js.dquote "&quot;"
            (Js.replaceAll "&" "&amp;" str))).

(** *** Storage adapter (lines 17-21) *)

(** [JSON.stringify] writes [undefined] array elements as [null]. *)
Definition stringifyEntry (e : Entry) : Entry :=
  match e with
  | Undefined => Null
  | _ => e
  end.

(** [localStorage.setItem] throws when the quota is exceeded or storage
    is blocked; [save] does not catch it, so the handler stops there. *)
Definition save : M unit :=
  let* bl := gets blogs in
  let* ok := gets accepts in
  if ok (stringifyEntry <$> bl)
  then modify (set_storage (Array (stringifyEntry <$> bl)))
  else throw.

Definition load : M Loaded :=
  gets (fun s =>
          match storage s with
          | NoItem | Unparsable | Falsy => LoadedNull
          | NonArray => LoadedOther
          | Array l => LoadedArray l
          end).

(** *** Seed extractor (lines 24-73) *)

(** The loop of lines 53-60: the first anchor whose lower-cased text
    contains [read], or that has the class [read-more]. *)
Fixpoint findDetailUrl (aCandidates : list Anchor) : string :=
  match aCandidates with
  | [] => EmptyString
  | a :: rest =>
      let txt := Js.toLowerCase (innerText a) in
      if Js.includes txt "read" || readMore a
      then match href a with
           | Some h => h          (* [h || ''] is [h], also when empty *)
           | None => EmptyString
           end
      else findDetailUrl rest
  end.

(** The callback of [staticCards.map], with the reading of the clock. *)
Definition readCard (t : Z) (i : nat) (card : Card) : Post :=
  {| id := t + Z.of_nat i;
     title := match heading card with
              | Some txt => Js.trim txt
              | None => "Post " +:+ Js.numToString (Z.of_nat i + 1)
              end;
     image := match img card with
              | Some src => src
              | None => Some EmptyString
              end;
     content := match para card with
                | Some txt => Js.trim txt
                | None => EmptyString
                end;
     detailUrl := findDetailUrl (anchors card) |}.

(** Lines 31-72: the extraction branch. *)
Definition seedFromDOM : M unit :=
  let* container := gets blogList in
  match container with
  | None => modify (set_blogs [])
  | Some staticCards =>
      if (Js.len staticCards =? 0)%Z
      then modify (set_blogs []) ;; save
      else
        let* t := gets now in
        modify (set_blogs (Rec <$> imap (readCard t) staticCards)) ;;
        save
  end.

(** The guard of line 26: [stored && Array.isArray(stored) &&
    stored.length > 0]. *)
Definition usable (stored : Loaded) : option (list Entry) :=
  match stored with
  | LoadedArray l => if (0 <? Js.len l)%Z then Some l else None
  | LoadedNull | LoadedOther => None
  end.

Definition initializeFromDOM : M unit :=
  let* stored := load in
  match usable stored with
  | Some l => modify (set_blogs l)
  | None => seedFromDOM
  end.

(** *** Renderer (lines 76-113) *)

Definition imageHtml (b : Post) : string :=
  match image b with
  | Some src =>
      if Js.truthy src
      then "<div class=" +:+ Js.dq +:+ "card-image" +:+ Js.dq +:+ "><img src="
           +:+ Js.dq +:+ escapeHtml src +:+ Js.dq +:+ " alt=" +:+ Js.dq
           +:+ escapeHtml (title b) +:+ Js.dq +:+ "></div>"
      else EmptyString
  | None => EmptyString
  end.

Definition titleHtml (b : Post) : string :=
  "<h3 class=" +:+ Js.dq +:+ "blog-title" +:+ Js.dq +:+ ">"
  +:+ escapeHtml (title b) +:+ "</h3>".

Definition excerptHtml (b : Post) : string :=
  "<p class=" +:+ Js.dq +:+ "blog-excerpt" +:+ Js.dq +:+ ">"
  +:+ escapeHtml (truncate (content b) 320) +:+ "</p>".

Definition readHref (b : Post) : string :=
  if Js.truthy (detailUrl b) && negb (String.eqb (Js.trim (detailUrl b)) EmptyString)
  then detailUrl b
  else "single.html?id=" +:+ Js.numToString (id b).

Definition footerHtml (b : Post) (idx : nat) : string :=
  Js.newline
  +:+ "          <div class=" +:+ Js.dq +:+ "card-buttons" +:+ Js.dq +:+ ">"
  +:+ Js.newline
  +:+ "            <a class=" +:+ Js.dq +:+ "read-more btn" +:+ Js.dq
  +:+ " href=" +:+ Js.dq +:+ escapeHtml (readHref b) +:+ Js.dq
  +:+ ">Read More</a>" +:+ Js.newline
  +:+ "            <button class=" +:+ Js.dq +:+ "delete-btn btn" +:+ Js.dq
  +:+ " data-index=" +:+ Js.dq +:+ Js.numToString (Z.of_nat idx) +:+ Js.dq
  +:+ ">Delete</button>" +:+ Js.newline
  +:+ "          </div>" +:+ Js.newline
  +:+ "        ".

(** [card.innerHTML] of line 103. *)
Definition cardHtml (b : Post) (idx : nat) : string :=
  imageHtml b +:+ "<div class=" +:+ Js.dq +:+ "card-body" +:+ Js.dq +:+ ">"
  +:+ titleHtml b +:+ excerptHtml b +:+ footerHtml b idx +:+ "</div>".

(** The [forEach] of lines 84-105 from position [idx] on: reading
    [blog.image] of [undefined] or [null] throws a TypeError, and the
    cards before it stay appended. *)
Fixpoint renderFrom (idx : nat) (l : list Entry) : M unit :=
  match l with
  | [] => ret tt
  | Rec b :: rest =>
      modify (fun s => set_listView (listView s ++ [cardHtml b idx]) s) ;;
      renderFrom (S idx) rest
  | _ :: _ => throw
  end.

Definition renderBlogs : M unit :=
  let* container := gets blogList in
  match container with
  | None => ret tt
  | Some _ =>
      modify (set_listView []) ;;
      let* bl := gets blogs in
      renderFrom 0 bl
  end.

(** *** Timers *)

Definition setTimeout (delay : Z) : M nat :=
  let* h := gets nextHandle in
  let* t := gets now in
  modify (fun s => set_timers (mkTimer h (t + delay) :: timers s) s) ;;
  modify (set_nextHandle (S h)) ;;
  ret h.

Definition clearTimeout (h : nat) : M unit :=
  modify (fun s =>
            set_timers (filter (fun tm => handle tm <> h) (timers s)) s).

(** [box.style.display = v], for the captured or looked-up element. *)
Definition setDisplay (v : string) : M unit :=
  modify (fun s =>
            match undoMessage s with
            | Some box => set_undoMessage (Some (mkUndoBox (innerHTML box) v)) s
            | None => s
            end).

(** The callback of lines 146-150. *)
Definition expire : M unit :=
  setDisplay "none" ;;
  modify (set_recentlyDeleted None) ;;
  modify (set_undoTimeout None).

(** *** Delete and undo (lines 116-164) *)

Definition showUndo (deleted : option Deleted) : M unit :=
  let* box := gets undoMessage in
  match box with
  | None => ret tt
  | Some _ =>
      modify (set_undoMessage
                (Some (mkUndoBox
                         ("Blog deleted. <button id=" +:+ Js.dq +:+ "undoBtn"
                          +:+ Js.dq +:+ ">Undo</button>")
                         "block"))) ;;
      let* ut := gets undoTimeout in
      match ut with
      | Some h => clearTimeout h
      | None => ret tt
      end ;;
      let* h := setTimeout 6000 in
      modify (set_undoTimeout (Some h))
  end.

Definition deleteBlog (index : Js.num) : M unit :=
  let* bl := gets blogs in
  if Js.lt index (Js.Int 0) || Js.ge index (Js.Int (Js.len bl)) then ret tt
  else
    modify (set_recentlyDeleted
              (Some (mkDeleted (default Undefined (Js.get bl index)) index))) ;;
    modify (set_blogs (Js.splice bl index 1 [])) ;;
    save ;;
    renderBlogs ;;
    let* rd := gets recentlyDeleted in
    showUndo rd.

(** [onDeleteBtnClick], given [Number(btn.getAttribute('data-index'))]. *)
Definition onDeleteBtnClick (idx : Js.num) : M unit := deleteBlog idx.

Definition undoDelete : M unit :=
  let* rd := gets recentlyDeleted in
  match rd with
  | None => ret tt
  | Some d =>
      let* bl := gets blogs in
      let idx := Js.min (index d) (Js.Int (Js.len bl)) in
      modify (set_blogs (Js.splice bl idx 0 [blog d])) ;;
      save ;;
      modify (set_recentlyDeleted None) ;;
      setDisplay "none" ;;
      renderBlogs ;;
      let* ut := gets undoTimeout in
      match ut with
      | Some h => clearTimeout h ;; modify (set_undoTimeout None)
      | None => ret tt
      end
  end.

(** *** Add (lines 167-179) *)

(** [v || d] for an optional string argument. *)
Definition orElse (v : option string) (d : string) : string :=
  match v with
  | Some s => if Js.truthy s then s else d
  | None => d
  end.

Definition addBlog (f : Fields) : M unit :=
  let* t := gets now in
  let newBlog :=
    {| id := t;
       title := orElse (fTitle f) "Untitled";
       image := Some (orElse (fImage f) EmptyString);
       content := orElse (fContent f) EmptyString;
       detailUrl := orElse (fDetailUrl f) EmptyString |} in
  modify (fun s => set_blogs (Js.unshift (Rec newBlog) (blogs s)) s) ;;
  save ;;
  renderBlogs.

(** *** Single-post view (lines 198-217) *)

(** [blogs.find(b => String(b.id) === String(id))]; reading [b.id] of
    [undefined] or [null] throws. *)
Fixpoint findPost (idstr : string) (l : list Entry) : M (option Post) :=
  match l with
  | [] => ret None
  | Rec b :: rest =>
      if String.eqb (Js.numToString (id b)) idstr then ret (Some b)
      else findPost idstr rest
  | _ :: _ => throw
  end.

Definition notFound : string := "<p>Post not found.</p>".

Definition singleHtml (post : Post) : string :=
  Js.newline
  +:+ "        <h2>" +:+ escapeHtml (title post) +:+ "</h2>" +:+ Js.newline
  +:+ "        "
  +:+ match image post with
      | Some src =>
          if Js.truthy src
          then "<div class=" +:+ Js.dq +:+ "single-image" +:+ Js.dq
               +:+ "><img src=" +:+ Js.dq +:+ escapeHtml src +:+ Js.dq
               +:+ " alt=" +:+ Js.dq +:+ escapeHtml (title post) +:+ Js.dq
               +:+ "></div>"
          else EmptyString
      | None => EmptyString
      end
  +:+ Js.newline
  +:+ "        <div class=" +:+ Js.dq +:+ "single-content" +:+ Js.dq +:+ "><p>"
  +:+ Js.replaceAll (ascii_of_nat 10) "<br>" (escapeHtml (content post))
  +:+ "</p></div>" +:+ Js.newline
  +:+ "      ".

(** [query] is [params.get('id')]. *)
Definition renderSingleIfNeeded (query : option string) : M unit :=
  let* out := gets singleBlog in
  match out with
  | None => ret tt
  | Some _ =>
      match query with
      | None => modify (set_singleBlog (Some notFound))
      | Some idstr =>
          if negb (Js.truthy idstr) then modify (set_singleBlog (Some notFound))
          else
            let* bl := gets blogs in
            let* post := findPost idstr bl in
            match post with
            | None => modify (set_singleBlog (Some notFound))
            | Some p => modify (set_singleBlog (Some (singleHtml p)))
            end
      end
  end.

(** *** The page: load, then events, each handler run to completion *)

(** The [DOMContentLoaded] listener of lines 227-231. *)
Definition onLoad (query : option string) : M unit :=
  initializeFromDOM ;;
  renderBlogs ;;
  renderSingleIfNeeded query.

(** The module state when the script has been evaluated, over a given
    storage item, storage environment, clock, and document. *)
Definition fresh (st : Stored) (ok : list Entry -> bool) (t : Z)
    (cards : option (list Card)) (box : option UndoBox)
    (single : option string) : State :=
  {| blogs := [];
     recentlyDeleted := None;
     undoTimeout := None;
     storage := st;
     now := t;
     timers := [];
     nextHandle := 1;
     blogList := cards;
     listView := [];
     undoMessage := box;
     singleBlog := single;
     accepts := ok |}.

Inductive Event : Type :=
| Add (f : Fields)           (* inspireHub.addBlog(f) *)
| Delete (i : Js.num)        (* a delete button, or inspireHub.deleteBlogById(i) *)
| Undo                       (* the undo button, or inspireHub.undoDelete() *)
| Elapse (ms : N)            (* time passes *)
| Fire (h : nat)             (* the timer with handle h runs, once due *)
| Storage (ok : list Entry -> bool).   (* the storage environment changes *)

(** A scheduled timer runs no earlier than its due time, and once. *)
Definition fire (h : nat) : M unit :=
  let* t := gets now in
  let* q := gets timers in
  match filter (fun tm => handle tm = h /\ (due tm <= t)%Z) q with
  | [] => ret tt
  | _ :: _ => clearTimeout h ;; expire
  end.

Definition handler (e : Event) : M unit :=
  match e with
  | Add f => addBlog f
  | Delete i => deleteBlog i
  | Undo => undoDelete
  | Elapse ms => modify (fun s => set_now (now s + Z.of_N ms) s)
  | Fire h => fire h
  | Storage ok => modify (set_accepts ok)
  end.

Definition step (s : State) (e : Event) : State := exec (handler e) s.

Definition run (evs : list Event) (s : State) : State := fold_left step evs s.

(** *** Auxiliary notions for the statements *)

(** The ids carried by a list of entries. *)
Definition entryIds (e : Entry) : list Z :=
  match e with
  | Rec p => [id p]
  | Undefined | Null => []
  end.

Definition ids (l : list Entry) : list Z := l ≫= entryIds.

Definition pendingEntries (s : State) : list Entry :=
  match recentlyDeleted s with
  | Some d => [blog d]
  | None => []
  end.

(** The ids in the store and in the pending-deletion slot. *)
Definition liveIds (s : State) : list Z := ids (blogs s ++ pendingEntries s).

(** Every [Add] of the trace happens at a clock reading that no record
    of the store or of the pending slot carries as its id. *)
Fixpoint freshAdds (evs : list Event) (s : State) : Prop :=
  match evs with
  | [] => True
  | e :: rest =>
      match e with
      | Add _ => now s ∉ liveIds s
      | _ => True
      end /\ freshAdds rest (step s e)
  end.

(** Events that only let time pass or run due timers. *)
Definition isTimeEvent (e : Event) : bool :=
  match e with
  | Elapse _ | Fire _ => true
  | _ => false
  end.

(** A page without [#undoMessage] on which no expiry is scheduled. *)
Definition quiet (s : State) : Prop :=
  undoMessage s = None /\ timers s = [].

(** The index of a pending slot is one the guard of line 124 let through:
    an integer that is not negative, or [NaN]. *)
Definition slotShape (s : State) : Prop :=
  match recentlyDeleted s with
  | Some d =>
      match index d with
      | Js.Int i => (0 <= i)%Z
      | Js.NaN => True
      end
  | None => True
  end.

(** Occurrences of a character in a string. *)
Fixpoint count (c : ascii) (s : string) : nat :=
  match s with
  | EmptyString => 0
  | String a t => (if Ascii.eqb a c then 1 else 0) + count c t
  end.

(** The characters [escapeHtml] replaces. *)
Definition specials : list ascii := ["&"%char; Js.dquote; "<"%char; ">"%char].

(** Whether the card of a record has an image block (line 89). *)
Definition hasImage (b : Post) : bool :=
  match image b with
  | Some src => Js.truthy src
  | None => false
  end.

(** The four entities [escapeHtml] emits. *)
Definition entities : list string :=
  ["&amp;"; "&quot;"; "&lt;"; "&gt;"].

(** Every ampersand of [s] starts one of the entities. *)
Fixpoint ampsAreEntities (s : string) : bool :=
  match s with
  | EmptyString => true
  | String a t =>
      (if Ascii.eqb a "&"
       then existsb (fun e => String.prefix e s) entities
       else true)
      && ampsAreEntities t
  end.

(** The part of the state the store operations are about. *)
Definition mem (s : State) : list Entry * option Deleted * Stored :=
  (blogs s, recentlyDeleted s, storage s).

(** The state [deleteBlog] has built when it calls [save] (lines
    125-126), once the guard of line 124 has let the index through. *)
Definition spliced (index : Js.num) (s : State) : State :=
  set_blogs (Js.splice (blogs s) index 1 [])
    (set_recentlyDeleted
       (Some (mkDeleted (default Undefined (Js.get (blogs s) index)) index))
       s).

(** The state it has built when it calls [renderBlogs], the write having
    succeeded (lines 125-127). *)
Definition afterSplice (index : Js.num) (s : State) : State :=
  set_storage (Array (stringifyEntry <$> blogs (spliced index s)))
    (spliced index s).

(** The state [undoDelete] has built when it calls [save] (lines
    157-158). *)
Definition restored (d : Deleted) (s : State) : State :=
  set_blogs
    (Js.splice (blogs s) (Js.min (index d) (Js.Int (Js.len (blogs s)))) 0
       [blog d])
    s.

(** The store, slot and storage [undoDelete] leaves when the write
    succeeds (lines 157-160). *)
Definition afterRestore (d : Deleted) (s : State) : State :=
  set_recentlyDeleted None
    (set_storage (Array (stringifyEntry <$> blogs (restored d s)))
       (restored d s)).

(** The record [addBlog] builds (lines 168-174). *)
Definition newBlog (f : Fields) (t : Z) : Post :=
  {| id := t;
     title := orElse (fTitle f) "Untitled";
     image := Some (orElse (fImage f) EmptyString);
     content := orElse (fContent f) EmptyString;
     detailUrl := orElse (fDetailUrl f) EmptyString |}.

(** Whether the write a handler attempts in state [s] is taken. *)
Definition deleteAccepted (index : Js.num) (s : State) : bool :=
  accepts s (stringifyEntry <$> blogs (spliced index s)).

Definition restoreAccepted (s : State) : bool :=
  match recentlyDeleted s with
  | Some d => accepts s (stringifyEntry <$> blogs (restored d s))
  | None => true
  end.

Definition addAccepted (f : Fields) (s : State) : bool :=
  accepts s (stringifyEntry <$> (Rec (newBlog f (now s)) :: blogs s)).

Definition writeAccepted (s : State) (e : Event) : bool :=
  match e with
  | Add f => addAccepted f s
  | Delete i =>
      Js.lt i (Js.Int 0) || Js.ge i (Js.Int (Js.len (blogs s)))
      || deleteAccepted i s
  | Undo => restoreAccepted s
  | Elapse _ | Fire _ | Storage _ => true
  end.

(** Every restore of the trace has its write taken. *)
Fixpoint restoresSaved (evs : list Event) (s : State) : Prop :=
  match evs with
  | [] => True
  | e :: rest =>
      match e with
      | Undo => restoreAccepted s = true
      | _ => True
      end /\ restoresSaved rest (step s e)
  end.

(** Every write attempted along the trace is taken. *)
Fixpoint writesSucceed (evs : list Event) (s : State) : Prop :=
  match evs with
  | [] => True
  | e :: rest => writeAccepted s e = true /\ writesSucceed rest (step s e)
  end.

(** *** A small page to run the handlers on *)

Definition postA : Post := mkPost 1 "A" (Some EmptyString) EmptyString EmptyString.
Definition postB : Post := mkPost 2 "B" (Some EmptyString) EmptyString EmptyString.
Definition postC : Post := mkPost 3 "C" (Some EmptyString) EmptyString EmptyString.

Definition page (bl : list Entry) (box : option UndoBox) : State :=
  {| blogs := bl;
     recentlyDeleted := None;
     undoTimeout := None;
     storage := Array bl;
     now := 1700000000000;
     timers := [];
     nextHandle := 1;
     blogList := Some [];
     listView := [];
     undoMessage := box;
     singleBlog := None;
     accepts := fun _ => true |}.

(** The same page when storage takes nothing. *)
Definition fullPage (bl : list Entry) (box : option UndoBox) : State :=
  set_accepts (fun _ => false) (page bl box).

Definition hiddenBox : UndoBox := mkUndoBox EmptyString "none".

Definition cardHello : Card :=
  mkCard None (Some " Hello ") (Some "First post.")
    [mkAnchor "Read More" false (Some "hello.html")].

Definition untitled : Fields := mkFields None None None None.

(** *** Notions for further properties of the script *)

(** What [escapeHtml] is meant to write for one character. *)
Definition escapeChar (a : ascii) : string :=
  if Ascii.eqb a "&" then "&amp;"
  else if Ascii.eqb a Js.dquote then "&quot;"
  else if Ascii.eqb a "<" then "&lt;"
  else if Ascii.eqb a ">" then "&gt;"
  else String a EmptyString.

Fixpoint escapeChars (s : string) : string :=
  match s with
  | EmptyString => EmptyString
  | String a t => escapeChar a +:+ escapeChars t
  end.

(** The persisted item is the serialized store. *)
Definition synced (s : State) : Prop :=
  storage s = Array (stringifyEntry <$> blogs s).

(** At most one expiry is scheduled, and [undoTimeout] names it. *)
Definition oneTimer (s : State) : Prop :=
  match undoTimeout s with
  | Some h => exists d, timers s = [mkTimer h d]
  | None => timers s = []
  end.

(** The test of line 56 on one anchor. *)
Definition isReadLink (a : Anchor) : bool :=
  Js.includes (Js.toLowerCase (innerText a)) "read" || readMore a.

(** The cards [renderBlogs] writes for a list of records, from display
    index [idx] on. *)
Definition cardsFrom (idx : nat) (ps : list Post) : list string :=
  imap (fun i p => cardHtml p (idx + i)) ps.

(** The view shows the store: when the store holds records only, the
    view is their cards, in order. *)
Definition viewSynced (s : State) : Prop :=
  forall ps, blogs s = Rec <$> ps -> listView s = cardsFrom 0 ps.

(** Whether an entry is a record. *)
Definition isRec (e : Entry) : bool :=
  match e with
  | Rec _ => true
  | Undefined | Null => false
  end.

End BlogCrud.

(** ** Facts about the primitives *)

Module JsFacts.

Import Js.

Section Splice.
Context {A : Type}.
Implicit Types (l : list A) (x : A) (start : num).

Lemma len_nonneg l : (0 <= len l)%Z.
Proof. unfold len. lia. Qed.

Lemma spliceStart_range l start :
  (0 <= spliceStart l start <= len l)%Z.
Proof.
  pose proof (len_nonneg l).
  unfold spliceStart. destruct (toInteger start <? 0)%Z eqn:E; lia.
Qed.

(** Removing one element at a valid integer index. *)
Lemma splice_delete_valid l z :
  (0 <= z < len l)%Z ->
  splice l (Int z) 1 [] = delete (Z.to_nat z) l.
Proof.
  intros Hz. unfold splice, spliceStart. cbn [toInteger].
  destruct (z <? 0)%Z eqn:E; [lia|].
  rewrite delete_take_drop.
  replace (Z.min z (len l)) with z by lia.
  replace (z + Z.min (Z.max 1 0) (len l - z))%Z with (z + 1)%Z by lia.
  replace (Z.to_nat (z + 1)) with (S (Z.to_nat z)) by lia.
  reflexivity.
Qed.

(** With a [NaN] start, [splice] works at position 0. *)
Lemma splice_delete_NaN l : splice l NaN 1 [] = drop 1 l.
Proof.
  pose proof (len_nonneg l) as Hl.
  unfold splice, spliceStart. cbn [toInteger].
  change (0 <? 0)%Z with false. cbn match.
  replace (Z.min 0 (len l)) with 0%Z by lia.
  destruct l as [|a l']; [reflexivity|].
  replace (0 + Z.min (Z.max 1 0) (len (a :: l') - 0))%Z with 1%Z
    by (unfold len in *; cbn [length] in *; lia).
  reflexivity.
Qed.

(** Inserting one element: somewhere inside the array, wherever the
    start points. *)
Lemma splice_insert_at l start x :
  let n := Z.to_nat (spliceStart l start) in
  splice l start 0 [x] = take n l ++ x :: drop n l.
Proof.
  pose proof (spliceStart_range l start).
  unfold splice.
  replace (spliceStart l start
           + Z.min (Z.max 0 0) (len l - spliceStart l start))%Z
    with (spliceStart l start) by lia.
  reflexivity.
Qed.

Lemma spliceStart_min l z :
  (0 <= z)%Z ->
  spliceStart l (min (Int z) (Int (len l))) = Z.min z (len l).
Proof.
  intros Hz. pose proof (len_nonneg l).
  unfold spliceStart. cbn [min toInteger].
  destruct (Z.min z (len l) <? 0)%Z eqn:E; lia.
Qed.

Lemma splice_insert_perm l start x : splice l start 0 [x] ≡ₚ x :: l.
Proof.
  rewrite splice_insert_at. cbv zeta.
  rewrite <- Permutation_middle. by rewrite take_drop.
Qed.
End Splice.

(** [append] and the string constructor. *)
Lemma append_cons a s1 s2 : String a s1 +:+ s2 = String a (s1 +:+ s2).
Proof. reflexivity. Qed.

Lemma append_nil s : EmptyString +:+ s = s.
Proof. reflexivity. Qed.

Lemma prefix_append e s1 s2 :
  String.prefix e s1 = true -> String.prefix e (s1 +:+ s2) = true.
Proof.
  revert s1. induction e as [|x e IH]; intros s1 H; [by destruct (s1 +:+ s2)|].
  destruct s1 as [|y s1]; [discriminate|].
  rewrite append_cons. cbn in *.
  destruct (ascii_dec x y); [auto|discriminate].
Qed.

End JsFacts.

(** ** How the handlers act on the state *)

Module StoreFacts.

Import Js JsFacts BlogCrud.
Local Open Scope js_scope.

(** Reading a field of an updated state. *)
Ltac simpl_state :=
  cbn [blogs recentlyDeleted undoTimeout storage now timers nextHandle
       blogList listView undoMessage singleBlog accepts
       set_blogs set_recentlyDeleted set_undoTimeout set_storage set_now
       set_timers set_nextHandle set_listView set_undoMessage
       set_singleBlog set_accepts] in *.

Lemma set_listView_same s : set_listView (listView s) s = s.
Proof. by destruct s. Qed.

(** [save] writes the serialized store, or throws and writes nothing. *)
Lemma save_run s :
  save s
  = if accepts s (stringifyEntry <$> blogs s)
    then (Returned tt, set_storage (Array (stringifyEntry <$> blogs s)) s)
    else (Threw, s).
Proof.
  unfold save, bind, gets, modify, throw.
  by destruct (accepts s (stringifyEntry <$> blogs s)).
Qed.

(** Rendering writes the list view and nothing else, whether or not it
    throws on the way. *)
Lemma renderFrom_run l : forall idx s,
  exists o v, renderFrom idx l s = (o, set_listView v s).
Proof.
  induction l as [|e l IH]; intros idx s.
  - exists (Returned tt), (listView s). cbn. by rewrite set_listView_same.
  - destruct e as [| |b]; cbn.
    + exists Threw, (listView s). unfold throw. by rewrite set_listView_same.
    + exists Threw, (listView s). unfold throw. by rewrite set_listView_same.
    + unfold bind, modify.
      destruct (IH (S idx) (set_listView (listView s ++ [cardHtml b idx]) s))
        as (o & v & ->).
      by exists o, v.
Qed.

Lemma renderBlogs_run s : exists o v, renderBlogs s = (o, set_listView v s).
Proof.
  unfold renderBlogs, bind, gets, modify.
  destruct (blogList s) as [cards|].
  - destruct (renderFrom_run (blogs (set_listView [] s)) 0 (set_listView [] s))
      as (o & v & ->).
    by exists o, v.
  - exists (Returned tt), (listView s). unfold ret. by rewrite set_listView_same.
Qed.

Lemma mem_eq_inv s s' :
  mem s = mem s' ->
  blogs s = blogs s' /\ recentlyDeleted s = recentlyDeleted s'
  /\ storage s = storage s'.
Proof. unfold mem. intros [= -> -> ->]. done. Qed.

Lemma showUndo_mem d s : mem (exec (showUndo d) s) = mem s.
Proof.
  unfold exec, showUndo, bind, gets, modify, ret, setTimeout, clearTimeout.
  destruct (undoMessage s); [|reflexivity].
  cbn. by destruct (undoTimeout s).
Qed.

Lemma showUndo_absent d s :
  undoMessage s = None -> showUndo d s = (Returned tt, s).
Proof. intros H. unfold showUndo, bind, gets. by rewrite H. Qed.

(** [deleteBlog] past the guard: it stops at a refused write, and goes on
    to render and to [showUndo] after a write that is taken. *)
Lemma deleteBlog_reject index s :
  Js.lt index (Int 0) || Js.ge index (Int (len (blogs s))) = false ->
  deleteAccepted index s = false ->
  deleteBlog index s = (Threw, spliced index s).
Proof.
  intros G Hw. unfold deleteBlog, bind, gets, modify. rewrite G.
  cbn beta iota. fold (spliced index s). rewrite save_run.
  unfold deleteAccepted in Hw.
  change (accepts (spliced index s)) with (accepts s). by rewrite Hw.
Qed.

Lemma deleteBlog_pass index s :
  Js.lt index (Int 0) || Js.ge index (Int (len (blogs s))) = false ->
  deleteAccepted index s = true ->
  exists o v,
    renderBlogs (afterSplice index s) = (o, set_listView v (afterSplice index s))
    /\ deleteBlog index s =
       match o with
       | Returned _ =>
           showUndo (recentlyDeleted (afterSplice index s))
             (set_listView v (afterSplice index s))
       | Threw => (Threw, set_listView v (afterSplice index s))
       end.
Proof.
  intros G Hw.
  destruct (renderBlogs_run (afterSplice index s)) as (o & v & Hr).
  exists o, v. split; [exact Hr|].
  unfold deleteBlog, bind, gets, modify. rewrite G. cbn beta iota.
  fold (spliced index s). rewrite save_run.
  unfold deleteAccepted in Hw.
  change (accepts (spliced index s)) with (accepts s). rewrite Hw.
  fold (afterSplice index s). rewrite Hr. by destruct o.
Qed.

Lemma deleteBlog_stop index s :
  Js.lt index (Int 0) || Js.ge index (Int (len (blogs s))) = true ->
  deleteBlog index s = (Returned tt, s).
Proof. intros G. unfold deleteBlog, bind, gets. by rewrite G. Qed.

(** Store and slot are written before the write is attempted. *)
Lemma deleteBlog_core index s :
  Js.lt index (Int 0) || Js.ge index (Int (len (blogs s))) = false ->
  blogs (exec (deleteBlog index) s) = Js.splice (blogs s) index 1 []
  /\ recentlyDeleted (exec (deleteBlog index) s)
     = Some (mkDeleted (default Undefined (Js.get (blogs s) index)) index).
Proof.
  intros G. unfold exec. destruct (deleteAccepted index s) eqn:Hw.
  - destruct (deleteBlog_pass index s G Hw) as (o & v & _ & ->).
    destruct o; [|done].
    destruct (mem_eq_inv _ _
                (showUndo_mem (recentlyDeleted (afterSplice index s))
                   (set_listView v (afterSplice index s)))) as (Hb & Hd & _).
    unfold exec in Hb, Hd. by rewrite Hb, Hd.
  - by rewrite deleteBlog_reject.
Qed.

Lemma deleteBlog_mem index s :
  Js.lt index (Int 0) || Js.ge index (Int (len (blogs s))) = false ->
  deleteAccepted index s = true ->
  mem (exec (deleteBlog index) s) = mem (afterSplice index s).
Proof.
  intros G Hw. unfold exec at 1.
  destruct (deleteBlog_pass index s G Hw) as (o & v & _ & ->).
  destruct o; [|reflexivity].
  fold (exec (showUndo (recentlyDeleted (afterSplice index s)))
          (set_listView v (afterSplice index s))).
  by rewrite showUndo_mem.
Qed.

(** The guard at integer indices. *)
Lemma guard_valid {A} (l : list A) z :
  (0 <= z < len l)%Z ->
  Js.lt (Int z) (Int 0) || Js.ge (Int z) (Int (len l)) = false.
Proof. intros H. cbn. destruct (z <? 0)%Z eqn:E1, (len l <=? z)%Z eqn:E2; lia. Qed.

Lemma guard_invalid {A} (l : list A) z :
  (z < 0 \/ len l <= z)%Z ->
  Js.lt (Int z) (Int 0) || Js.ge (Int z) (Int (len l)) = true.
Proof. intros H. cbn. destruct (z <? 0)%Z eqn:E1, (len l <=? z)%Z eqn:E2; lia. Qed.

Lemma lookup_valid {A} (l : list A) z :
  (0 <= z < len l)%Z -> exists r, l !! Z.to_nat z = Some r.
Proof.
  intros H. apply lookup_lt_is_Some. unfold len in H. lia.
Qed.

Lemma get_valid {A} (l : list A) z r :
  (0 <= z)%Z -> l !! Z.to_nat z = Some r -> Js.get l (Int z) = Some r.
Proof. intros H E. cbn. destruct (0 <=? z)%Z eqn:E1; [done|lia]. Qed.

(** A delete at a valid index, on the store and the pending slot. *)
Lemma deleteBlog_valid s z r :
  (0 <= z < len (blogs s))%Z ->
  blogs s !! Z.to_nat z = Some r ->
  blogs (exec (deleteBlog (Int z)) s) = delete (Z.to_nat z) (blogs s)
  /\ recentlyDeleted (exec (deleteBlog (Int z)) s) = Some (mkDeleted r (Int z)).
Proof.
  intros Hz Hr.
  destruct (deleteBlog_core (Int z) s (guard_valid _ _ Hz)) as [-> ->].
  rewrite splice_delete_valid by done.
  by rewrite (get_valid _ _ _ (proj1 Hz) Hr).
Qed.

(** The list a delete at a valid index tries to persist. *)
Lemma deleteAccepted_valid s z :
  (0 <= z < len (blogs s))%Z ->
  deleteAccepted (Int z) s
  = accepts s (stringifyEntry <$> delete (Z.to_nat z) (blogs s)).
Proof.
  intros Hz. unfold deleteAccepted, spliced. simpl_state.
  by rewrite splice_delete_valid.
Qed.

Lemma deleteBlog_valid_storage s z :
  (0 <= z < len (blogs s))%Z ->
  storage (exec (deleteBlog (Int z)) s)
  = if accepts s (stringifyEntry <$> delete (Z.to_nat z) (blogs s))
    then Array (stringifyEntry <$> delete (Z.to_nat z) (blogs s))
    else storage s.
Proof.
  intros Hz. pose proof (guard_valid _ _ Hz) as G.
  rewrite <- deleteAccepted_valid by done.
  destruct (deleteAccepted (Int z) s) eqn:Hw.
  - destruct (mem_eq_inv _ _ (deleteBlog_mem (Int z) s G Hw)) as (_ & _ & ->).
    unfold afterSplice, spliced. simpl_state.
    by rewrite splice_delete_valid.
  - unfold exec. by rewrite deleteBlog_reject.
Qed.

(** The persisted item after a delete that passed the guard. *)
Lemma deleteBlog_storage index s :
  Js.lt index (Int 0) || Js.ge index (Int (len (blogs s))) = false ->
  storage (exec (deleteBlog index) s)
  = if deleteAccepted index s
    then Array (stringifyEntry <$> Js.splice (blogs s) index 1 [])
    else storage s.
Proof.
  intros G. destruct (deleteAccepted index s) eqn:Hw.
  - by destruct (mem_eq_inv _ _ (deleteBlog_mem index s G Hw)) as (_ & _ & ->).
  - unfold exec. by rewrite deleteBlog_reject.
Qed.

(** [undoDelete] with a pending slot: it stops at a refused write, the
    record back in the store and still in the slot. *)
Lemma undoDelete_reject s d :
  recentlyDeleted s = Some d ->
  restoreAccepted s = false ->
  undoDelete s = (Threw, restored d s).
Proof.
  intros H Hw. unfold undoDelete, bind, gets, modify. rewrite H.
  cbn beta iota. fold (restored d s). rewrite save_run.
  unfold restoreAccepted in Hw. rewrite H in Hw.
  change (accepts (restored d s)) with (accepts s). by rewrite Hw.
Qed.

Lemma undoDelete_mem s d :
  recentlyDeleted s = Some d ->
  restoreAccepted s = true ->
  mem (exec undoDelete s) = mem (afterRestore d s).
Proof.
  intros H Hw. unfold exec, undoDelete, setDisplay, bind, gets, modify.
  rewrite H. cbn beta iota. fold (restored d s). rewrite save_run.
  unfold restoreAccepted in Hw. rewrite H in Hw.
  change (accepts (restored d s)) with (accepts s). rewrite Hw.
  cbn beta iota. unfold afterRestore, restored. simpl_state.
  match goal with
  | |- context [renderBlogs ?s2] =>
      destruct (renderBlogs_run s2) as (o & v & ->)
  end.
  simpl_state.
  destruct o; [|by destruct (undoMessage s)].
  unfold clearTimeout, bind, modify, ret.
  destruct (undoMessage s); simpl_state; by destruct (undoTimeout s).
Qed.

(** The record is back in the store before the write is attempted. *)
Lemma undoDelete_core s d :
  recentlyDeleted s = Some d ->
  blogs (exec undoDelete s)
  = Js.splice (blogs s) (Js.min (index d) (Int (len (blogs s)))) 0 [blog d].
Proof.
  intros H. destruct (restoreAccepted s) eqn:Hw.
  - by destruct (mem_eq_inv _ _ (undoDelete_mem s d H Hw)) as (-> & _ & _).
  - unfold exec. by rewrite (undoDelete_reject s d).
Qed.

Lemma undoDelete_idle s :
  recentlyDeleted s = None -> undoDelete s = (Returned tt, s).
Proof. intros H. unfold undoDelete, bind, gets. by rewrite H. Qed.

(** [addBlog]: the record is in front before the write is attempted. *)
Lemma addBlog_run f s :
  let s1 := set_blogs (Rec (newBlog f (now s)) :: blogs s) s in
  exists o v,
    addBlog f s
    = if addAccepted f s
      then (o, set_listView v
                 (set_storage (Array (stringifyEntry <$> blogs s1)) s1))
      else (Threw, s1).
Proof.
  intros s1. unfold addBlog, bind, gets, modify. cbn beta iota zeta.
  change (set_blogs (unshift _ (blogs s)) s) with s1. rewrite save_run.
  unfold addAccepted. change (Rec (newBlog f (now s)) :: blogs s) with (blogs s1).
  change (accepts s1) with (accepts s).
  destruct (accepts s (stringifyEntry <$> blogs s1)); [|by exists Threw, []].
  destruct (renderBlogs_run
              (set_storage (Array (stringifyEntry <$> blogs s1)) s1))
    as (o & v & ->).
  exists o, v. by destruct o.
Qed.

Lemma addBlog_core f s :
  blogs (exec (addBlog f) s) = Rec (newBlog f (now s)) :: blogs s
  /\ recentlyDeleted (exec (addBlog f) s) = recentlyDeleted s.
Proof.
  unfold exec. destruct (addBlog_run f s) as (o & v & ->).
  by destruct (addAccepted f s).
Qed.

Lemma mem_inv s bl rd st :
  mem s = (bl, rd, st) ->
  blogs s = bl /\ recentlyDeleted s = rd /\ storage s = st.
Proof. unfold mem. intros [= -> -> ->]. done. Qed.

(** Putting an element back where it was removed. *)
Lemma reinsert_deleted {A} (l : list A) : forall n r,
  l !! n = Some r ->
  take n (delete n l) ++ r :: drop n (delete n l) = l.
Proof.
  induction l as [|a l IH]; intros n r H; [done|].
  destruct n as [|n]; cbn in *.
  - by injection H as ->.
  - f_equal. by apply IH.
Qed.

Lemma NoDup_delete_notin {A} (l : list A) n r :
  NoDup l -> l !! n = Some r -> r ∉ delete n l.
Proof.
  intros Hnd Hn Hin. apply list_elem_of_lookup in Hin as [k Hk].
  destruct (decide (k < n)) as [Hlt|Hge].
  - rewrite list_lookup_delete_lt in Hk by done.
    pose proof (NoDup_lookup _ _ _ _ Hnd Hn Hk). lia.
  - rewrite list_lookup_delete_ge in Hk by lia.
    pose proof (NoDup_lookup _ _ _ _ Hnd Hn Hk). lia.
Qed.

(** Inserting at the index of a slot whose index is a valid position. *)
Lemma restore_splice {A} (l : list A) z r :
  (0 <= z <= len l)%Z ->
  Js.splice l (Js.min (Int z) (Int (len l))) 0 [r]
  = take (Z.to_nat z) l ++ r :: drop (Z.to_nat z) l.
Proof.
  intros Hz. rewrite splice_insert_at, spliceStart_min by lia. cbv zeta.
  by replace (Z.min z (len l)) with z by lia.
Qed.

(** A restore right after a delete at a valid index. *)
Lemma restore_valid s z r :
  (0 <= z < len (blogs s))%Z ->
  blogs s !! Z.to_nat z = Some r ->
  let s1 := exec (deleteBlog (Int z)) s in
  blogs (exec undoDelete s1) = blogs s
  /\ blogs (exec undoDelete s1)
     = take (Z.to_nat z) (blogs s1) ++ r :: drop (Z.to_nat z) (blogs s1)
  /\ Z.min z (len (blogs s1)) = z.
Proof.
  intros Hz Hr s1.
  destruct (deleteBlog_valid s z r Hz Hr) as (Hb & Hd).
  fold s1 in Hb, Hd.
  assert (Hlen : len (blogs s1) = (len (blogs s) - 1)%Z).
  { rewrite Hb. unfold len in *. rewrite length_delete by by eexists. lia. }
  rewrite (undoDelete_core s1 _ Hd). cbn [index blog].
  rewrite restore_splice by lia.
  split; [|split; [done|lia]].
  rewrite Hb. by rewrite reinsert_deleted.
Qed.

(** The slot after a restore: empty when the write is taken, kept when it
    is refused. *)
Lemma undoDelete_slot s d :
  recentlyDeleted s = Some d ->
  recentlyDeleted (exec undoDelete s)
  = if restoreAccepted s then None else Some d.
Proof.
  intros H. destruct (restoreAccepted s) eqn:Hw.
  - by destruct (mem_eq_inv _ _ (undoDelete_mem s d H Hw)) as (_ & -> & _).
  - unfold exec. rewrite (undoDelete_reject s d) by done. exact H.
Qed.

(** No handler but [Storage] changes what storage takes. *)
Lemma accepts_showUndo d s : accepts (exec (showUndo d) s) = accepts s.
Proof.
  unfold exec, showUndo, bind, gets, modify, ret, setTimeout, clearTimeout.
  destruct (undoMessage s); [|reflexivity].
  cbn. by destruct (undoTimeout s).
Qed.

Lemma accepts_deleteBlog index s :
  accepts (exec (deleteBlog index) s) = accepts s.
Proof.
  destruct (Js.lt index (Int 0) || Js.ge index (Int (len (blogs s)))) eqn:G.
  { unfold exec. by rewrite deleteBlog_stop. }
  unfold exec. destruct (deleteAccepted index s) eqn:Hw.
  - destruct (deleteBlog_pass index s G Hw) as (o & v & _ & ->).
    destruct o; [|done].
    apply (accepts_showUndo (recentlyDeleted (afterSplice index s))
             (set_listView v (afterSplice index s))).
  - by rewrite deleteBlog_reject.
Qed.

Lemma accepts_addBlog f s : accepts (exec (addBlog f) s) = accepts s.
Proof.
  unfold exec. destruct (addBlog_run f s) as (o & v & ->).
  by destruct (addAccepted f s).
Qed.

End StoreFacts.

(** ** The store: delete, restore *)

Module Store.

Import Js JsFacts BlogCrud StoreFacts.

(** C6. For every state and every integer index with
    [0 <= index < length], [deleteBlog index] shortens the store by
    exactly one element: the store afterwards is the store with the
    element at [index] removed, and the pending-deletion slot holds that
    removed element together with [index]. *)
Theorem deleteBlog_removes_one s z :
  (0 <= z < len (blogs s))%Z ->
  let s' := exec (deleteBlog (Int z)) s in
  len (blogs s') = (len (blogs s) - 1)%Z
  /\ exists r,
      blogs s !! Z.to_nat z = Some r
      /\ blogs s' = delete (Z.to_nat z) (blogs s)
      /\ recentlyDeleted s' = Some (mkDeleted r (Int z)).
Proof.
  intros Hz s'. destruct (lookup_valid _ _ Hz) as [r Hr].
  destruct (deleteBlog_valid s z r Hz Hr) as (Hb & Hd).
  fold s' in Hb, Hd. split.
  - rewrite Hb. unfold len in *. rewrite length_delete by by eexists. lia.
  - by exists r.
Qed.

Lemma deleteBlog_removes_one_witness :
  let s := page [Rec postA; Rec postB] (Some hiddenBox) in
  let s' := exec (deleteBlog (Int 0)) s in
  len (blogs s') = (len (blogs s) - 1)%Z
  /\ exists r,
      blogs s !! Z.to_nat 0 = Some r
      /\ blogs s' = delete (Z.to_nat 0) (blogs s)
      /\ recentlyDeleted s' = Some (mkDeleted r (Int 0)).
Proof.
  apply (deleteBlog_removes_one (page [Rec postA; Rec postB] (Some hiddenBox)) 0).
  unfold len. cbn. lia.
Defined.

(** C7. For every state and every integer index outside [0, length),
    [deleteBlog index] returns at the guard: it does not throw and it
    leaves the whole state as it was, so the store, the persisted item
    and the pending-deletion slot are unchanged. *)
Theorem deleteBlog_out_of_range s z :
  (z < 0 \/ len (blogs s) <= z)%Z ->
  deleteBlog (Int z) s = (Returned tt, s).
Proof. intros Hz. apply deleteBlog_stop. by apply guard_invalid. Qed.

Lemma deleteBlog_out_of_range_witness :
  deleteBlog (Int 2) (page [Rec postA; Rec postB] (Some hiddenBox))
  = (Returned tt, page [Rec postA; Rec postB] (Some hiddenBox))
  /\ deleteBlog (Int (-1)) (page [Rec postA; Rec postB] (Some hiddenBox))
     = (Returned tt, page [Rec postA; Rec postB] (Some hiddenBox)).
Proof.
  split.
  - apply (deleteBlog_out_of_range _ 2). right. unfold len. cbn. lia.
  - apply (deleteBlog_out_of_range _ (-1)). left. lia.
Defined.

(** C3. For every state and every index with [0 <= index <= length],
    [undoDelete] run directly after one [deleteBlog index] gives back
    the store of before the delete, element for element. When there is an
    element [r] at [index], the delete leaves the store without that
    position and [r] in the slot, and the restore makes the store out of
    that shortened store by inserting [r] at position [min index length],
    the length being the one [undoDelete] reads. At [index = length] the
    delete returns at the guard and removes nothing, so the restore has
    only an earlier deletion to act on: "a single delete" is read as no
    earlier deletion pending in that case, and then neither call changes
    the state. The slot is empty afterwards when the write of the restore
    is taken, and as the delete left it when that write is refused. *)
Theorem restore_after_delete s z :
  (0 <= z <= len (blogs s))%Z ->
  (z < len (blogs s))%Z \/ recentlyDeleted s = None ->
  let s1 := exec (deleteBlog (Int z)) s in
  let s2 := exec undoDelete s1 in
  blogs s2 = blogs s
  /\ (z = len (blogs s) -> s1 = s /\ s2 = s)
  /\ (forall r,
        blogs s !! Z.to_nat z = Some r ->
        let m := Z.to_nat (Z.min z (len (blogs s1))) in
        blogs s1 = delete (Z.to_nat z) (blogs s)
        /\ recentlyDeleted s1 = Some (mkDeleted r (Int z))
        /\ blogs s2 = take m (blogs s1) ++ r :: drop m (blogs s1)
        /\ blogs s2 !! m = Some r)
  /\ recentlyDeleted s2
     = (if restoreAccepted s1 then None else recentlyDeleted s1).
Proof.
  intros Hz Hcase s1 s2.
  destruct (Z.eq_dec z (len (blogs s))) as [Heq|Hne].
  - destruct Hcase as [?|Hidle]; [lia|].
    assert (Hs1 : s1 = s).
    { unfold s1, exec. rewrite deleteBlog_stop; [done|]. apply guard_invalid. lia. }
    assert (Hs2 : s2 = s).
    { unfold s2, exec. rewrite Hs1, undoDelete_idle by done. done. }
    rewrite Hs2. split; [done|]. split; [done|]. split.
    + intros r Hr. apply lookup_lt_Some in Hr. unfold len in Heq. lia.
    + rewrite Hs1. unfold restoreAccepted. by rewrite Hidle.
  - assert (Hv : (0 <= z < len (blogs s))%Z) by lia.
    destruct (lookup_valid _ _ Hv) as [r Hr].
    destruct (restore_valid s z r Hv Hr) as (Hb & Hins & Hmin).
    fold s1 in Hb, Hins, Hmin. fold s2 in Hb, Hins.
    destruct (deleteBlog_valid s z r Hv Hr) as (Hb1 & Hd1).
    fold s1 in Hb1, Hd1.
    split; [done|]. split; [lia|]. split.
    + intros r' Hr' m. rewrite Hr in Hr'. injection Hr' as <-.
      unfold m. rewrite Hmin.
      split; [done|]. split; [done|]. split; [done|].
      rewrite Hb. done.
    + unfold s2. by rewrite (undoDelete_slot s1 _ Hd1), Hd1.
Qed.

Lemma restore_after_delete_witness :
  let s := page [Rec postA; Rec postB] (Some hiddenBox) in
  let s1 := exec (deleteBlog (Int 0)) s in
  let s2 := exec undoDelete s1 in
  blogs s2 = blogs s
  /\ (0%Z = len (blogs s) -> s1 = s /\ s2 = s)
  /\ (forall r,
        blogs s !! Z.to_nat 0 = Some r ->
        let m := Z.to_nat (Z.min 0 (len (blogs s1))) in
        blogs s1 = delete (Z.to_nat 0) (blogs s)
        /\ recentlyDeleted s1 = Some (mkDeleted r (Int 0))
        /\ blogs s2 = take m (blogs s1) ++ r :: drop m (blogs s1)
        /\ blogs s2 !! m = Some r)
  /\ recentlyDeleted s2
     = (if restoreAccepted s1 then None else recentlyDeleted s1).
Proof.
  apply (restore_after_delete (page [Rec postA; Rec postB] (Some hiddenBox)) 0).
  - unfold len. cbn. lia.
  - left. unfold len. cbn. lia.
Defined.

(** Every slot the handlers leave has an index of that shape, so the
    hypothesis [0 <= i] of the next theorem holds of every integer slot
    index that can arise. *)
Lemma step_slotShape s e : slotShape s -> slotShape (step s e).
Proof.
  intros Hs. unfold slotShape in *.
  destruct e as [f|i| |ms|h|ok]; unfold step, handler.
  - destruct (addBlog_core f s) as (_ & ->). done.
  - destruct (Js.lt i (Int 0) || Js.ge i (Int (len (blogs s)))) eqn:G.
    { unfold exec. by rewrite deleteBlog_stop. }
    destruct (deleteBlog_core i s G) as (_ & ->). cbn [index].
    destruct i as [z|]; [|done].
    cbn in G. destruct (z <? 0)%Z eqn:E; [discriminate|lia].
  - destruct (recentlyDeleted s) as [d|] eqn:Hd.
    + rewrite (undoDelete_slot s d Hd). by destruct (restoreAccepted s).
    + unfold exec. rewrite undoDelete_idle by done. cbn [snd]. by rewrite Hd.
  - done.
  - unfold exec, fire, expire, setDisplay, clearTimeout, bind, gets, modify, ret.
    destruct (filter _ (timers s)); [done|].
    simpl_state. by destruct (undoMessage s).
  - done.
Qed.

(** C4, as stated, fails: when storage refuses the write, [undoDelete]
    stops at [save] with the record back in the store and still in the
    slot, so the slot is not cleared, and a second [undoDelete] inserts
    the record once more. *)
Lemma refused_write_keeps_slot :
  let s := set_recentlyDeleted (Some (mkDeleted (Rec postC) (Int 5)))
             (fullPage [Rec postA; Rec postB] (Some hiddenBox)) in
  blogs (exec undoDelete s) = [Rec postA; Rec postB; Rec postC]
  /\ recentlyDeleted (exec undoDelete s) = Some (mkDeleted (Rec postC) (Int 5))
  /\ recentlyDeleted (exec undoDelete s) <> None
  /\ blogs (exec undoDelete (exec undoDelete s))
     = [Rec postA; Rec postB; Rec postC; Rec postC].
Proof. cbv zeta. split; [|split; [|split]]; by vm_compute. Qed.

(** C4, amended. When a pending-deletion slot [{blog := r; index := i}]
    exists (with [i] an index as [deleteBlog] stores it, an integer that is
    not negative), [undoDelete] puts [r] back at position [min i length];
    when [i] is beyond the current length that position is the end of the
    store. It empties the slot when the write that follows is taken; when
    storage refuses the write it stops there and the slot stays as it was.
    With no pending slot [undoDelete] returns at once and changes
    nothing. *)
Theorem undoDelete_reinserts s :
  (forall r i,
      recentlyDeleted s = Some (mkDeleted r (Int i)) ->
      (0 <= i)%Z ->
      let m := Z.to_nat (Z.min i (len (blogs s))) in
      let s' := exec undoDelete s in
      blogs s' = take m (blogs s) ++ r :: drop m (blogs s)
      /\ blogs s' !! m = Some r
      /\ recentlyDeleted s'
         = (if restoreAccepted s then None else Some (mkDeleted r (Int i)))
      /\ ((len (blogs s) <= i)%Z -> blogs s' = blogs s ++ [r]))
  /\ (recentlyDeleted s = None -> undoDelete s = (Returned tt, s)).
Proof.
  split; [|apply undoDelete_idle].
  intros r i Hd Hi m s'.
  pose proof (undoDelete_core s _ Hd) as Hb. fold s' in Hb.
  cbn [index blog] in Hb.
  rewrite splice_insert_at, spliceStart_min in Hb by done. cbv zeta in Hb.
  fold m in Hb.
  assert (Hm : m <= length (blogs s)) by (unfold m, len; lia).
  split; [done|]. split; [|split; [apply (undoDelete_slot s _ Hd)|]].
  - rewrite Hb. apply list_lookup_middle. by rewrite length_take_le.
  - intros Hge. rewrite Hb.
    replace m with (length (blogs s)) by (unfold m, len in *; lia).
    by rewrite firstn_all, drop_all.
Qed.

Lemma undoDelete_reinserts_witness :
  (let s := set_recentlyDeleted (Some (mkDeleted (Rec postC) (Int 5)))
              (page [Rec postA; Rec postB] (Some hiddenBox)) in
   blogs (exec undoDelete s) = [Rec postA; Rec postB; Rec postC]
   /\ recentlyDeleted (exec undoDelete s) = None)
  /\ undoDelete (page [Rec postA] None) = (Returned tt, page [Rec postA] None).
Proof.
  split.
  - pose (s := set_recentlyDeleted (Some (mkDeleted (Rec postC) (Int 5)))
                 (page [Rec postA; Rec postB] (Some hiddenBox))).
    destruct (undoDelete_reinserts s) as [H _].
    destruct (H (Rec postC) 5%Z) as (_ & _ & Hn & Happ);
      [reflexivity | lia |].
    split; [|exact Hn].
    apply Happ. unfold len. cbn. lia.
  - destruct (undoDelete_reinserts (page [Rec postA] None)) as [_ H].
    apply H. reflexivity.
Defined.

(** A slot whose index is [NaN] (the one [deleteBlog NaN] leaves) is put
    back at the front: [Math.min] gives [NaN], which [splice] reads as 0. *)
Lemma undoDelete_NaN_slot s r :
  recentlyDeleted s = Some (mkDeleted r NaN) ->
  blogs (exec undoDelete s) = r :: blogs s
  /\ recentlyDeleted (exec undoDelete s)
     = if restoreAccepted s then None else Some (mkDeleted r NaN).
Proof.
  intros Hd. split; [|apply (undoDelete_slot s _ Hd)].
  rewrite (undoDelete_core s _ Hd).
  cbn [index blog Js.min]. rewrite splice_insert_at.
  unfold spliceStart. cbn [toInteger]. change (0 <? 0)%Z with false.
  cbn match. pose proof (len_nonneg (blogs s)).
  by replace (Z.min 0 (len (blogs s))) with 0%Z by lia.
Qed.

(** C5. For every state, every valid index [i] and every index [j]
    valid after the first delete, two [deleteBlog] calls in a row leave
    only the second removed element in the pending-deletion slot;
    [undoDelete] then puts that second element back (the store is the one
    of before the second delete) and empties the slot when its write is
    taken; when that write is refused the slot still holds the second
    element. The first removed element is gone: the store is the original one
    without position [i], and when the elements of the original store are
    pairwise distinct (as distinct objects are), the first removed element
    is neither in the store nor in the slot. *)
Theorem second_delete_replaces_first s i j :
  (0 <= i < len (blogs s))%Z ->
  let s1 := exec (deleteBlog (Int i)) s in
  (0 <= j < len (blogs s1))%Z ->
  let s2 := exec (deleteBlog (Int j)) s1 in
  let s3 := exec undoDelete s2 in
  exists r1 r2,
    blogs s !! Z.to_nat i = Some r1
    /\ blogs s1 !! Z.to_nat j = Some r2
    /\ recentlyDeleted s1 = Some (mkDeleted r1 (Int i))
    /\ recentlyDeleted s2 = Some (mkDeleted r2 (Int j))
    /\ blogs s2 = delete (Z.to_nat j) (delete (Z.to_nat i) (blogs s))
    /\ blogs s3 = delete (Z.to_nat i) (blogs s)
    /\ blogs s3 !! Z.to_nat j = Some r2
    /\ recentlyDeleted s3
       = (if restoreAccepted s2 then None else Some (mkDeleted r2 (Int j)))
    /\ (NoDup (blogs s) -> r1 <> r2 /\ (r1 ∉ blogs s2) /\ (r1 ∉ blogs s3)).
Proof.
  intros Hi s1 Hj s2 s3.
  destruct (lookup_valid _ _ Hi) as [r1 Hr1].
  destruct (lookup_valid _ _ Hj) as [r2 Hr2].
  destruct (deleteBlog_valid s i r1 Hi Hr1) as (Hb1 & Hd1).
  fold s1 in Hb1, Hd1.
  destruct (deleteBlog_valid s1 j r2 Hj Hr2) as (Hb2 & Hd2).
  fold s2 in Hb2, Hd2.
  destruct (restore_valid s1 j r2 Hj Hr2) as (Hb3 & _). fold s2 s3 in Hb3.
  exists r1, r2.
  assert (Hnot : NoDup (blogs s) -> r1 ∉ blogs s1).
  { intros Hnd. rewrite Hb1. by apply NoDup_delete_notin. }
  repeat (split; [first [done | congruence]|]).
  split.
  - apply (undoDelete_slot s2 _ Hd2).
  - intros Hnd. specialize (Hnot Hnd). split; [|split].
    + intros ->. apply Hnot. by eapply list_elem_of_lookup_2.
    + rewrite Hb2. intros Hin. by apply list_elem_of_delete_inv in Hin.
    + by rewrite Hb3.
Qed.

Lemma second_delete_replaces_first_witness :
  let s := page [Rec postA; Rec postB; Rec postC] (Some hiddenBox) in
  let s1 := exec (deleteBlog (Int 0)) s in
  let s2 := exec (deleteBlog (Int 1)) s1 in
  let s3 := exec undoDelete s2 in
  exists r1 r2,
    blogs s !! Z.to_nat 0 = Some r1
    /\ blogs s1 !! Z.to_nat 1 = Some r2
    /\ recentlyDeleted s1 = Some (mkDeleted r1 (Int 0))
    /\ recentlyDeleted s2 = Some (mkDeleted r2 (Int 1))
    /\ blogs s2 = delete (Z.to_nat 1) (delete (Z.to_nat 0) (blogs s))
    /\ blogs s3 = delete (Z.to_nat 0) (blogs s)
    /\ blogs s3 !! Z.to_nat 1 = Some r2
    /\ recentlyDeleted s3
       = (if restoreAccepted s2 then None else Some (mkDeleted r2 (Int 1)))
    /\ (NoDup (blogs s) -> r1 <> r2 /\ (r1 ∉ blogs s2) /\ (r1 ∉ blogs s3)).
Proof.
  apply (second_delete_replaces_first
           (page [Rec postA; Rec postB; Rec postC] (Some hiddenBox)) 0 1).
  - unfold len. cbn. lia.
  - vm_compute. split; [discriminate | reflexivity].
Defined.

(** C9. [deleteBlog NaN] is not a no-op. Both comparisons of the guard
    are false for [NaN], so the call goes on: on a store [b :: rest] the
    slot captures [blogs[NaN]], which is [undefined], with index [NaN],
    and [splice(NaN, 1)] removes the element at position 0; the
    shortened store is persisted when the write is taken, and the
    persisted item stays as it was when the write is refused. *)
Theorem deleteBlog_NaN s0 b rest :
  let s := set_blogs (b :: rest) s0 in
  let s' := exec (deleteBlog NaN) s in
  Js.lt NaN (Int 0) = false
  /\ Js.ge NaN (Int (len (blogs s))) = false
  /\ recentlyDeleted s' = Some (mkDeleted Undefined NaN)
  /\ blogs s' = rest
  /\ len (blogs s') = (len (blogs s) - 1)%Z
  /\ storage s'
     = (if deleteAccepted NaN s then Array (stringifyEntry <$> rest)
        else storage s).
Proof.
  intros s s'.
  assert (G : Js.lt NaN (Int 0) || Js.ge NaN (Int (len (blogs s))) = false)
    by reflexivity.
  destruct (deleteBlog_core NaN s G) as (Hb & Hd). fold s' in Hb, Hd.
  rewrite splice_delete_NaN in Hb. cbn [Js.get default] in Hd.
  assert (Hb' : blogs s' = rest) by (rewrite Hb; reflexivity).
  split; [done|]. split; [done|]. split; [done|]. split; [done|].
  split.
  - rewrite Hb'. unfold s, len. simpl_state. cbn [length]. lia.
  - unfold s'. rewrite (deleteBlog_storage NaN s G).
    by rewrite splice_delete_NaN.
Qed.

Example deleteBlog_NaN_demo :
  let s' := exec (deleteBlog NaN)
              (page [Rec postA; Rec postB] (Some hiddenBox)) in
  blogs s' = [Rec postB]
  /\ recentlyDeleted s' = Some (mkDeleted Undefined NaN)
  /\ blogs (exec undoDelete s') = [Undefined; Rec postB].
Proof. vm_compute. done. Qed.

End Store.

(** ** Seeding and the ids of the records *)

Module SeedFacts.

Import Js JsFacts BlogCrud StoreFacts.
Local Open Scope js_scope.

Lemma load_run s :
  load s = (Returned match storage s with
                     | NoItem | Unparsable | Falsy => LoadedNull
                     | NonArray => LoadedOther
                     | Array l => LoadedArray l
                     end, s).
Proof. reflexivity. Qed.

(** Line 26 lets exactly the non-empty arrays through. *)
Lemma initializeFromDOM_cases s :
  initializeFromDOM s
  = match storage s with
    | Array (e :: l) => (Returned tt, set_blogs (e :: l) s)
    | _ => seedFromDOM s
    end.
Proof.
  unfold initializeFromDOM, bind. rewrite load_run.
  destruct (storage s) as [| | | |[|e l]]; reflexivity.
Qed.

(** The extraction sets the store, then writes it; a refused write leaves
    the item as it was. *)
Lemma seedFromDOM_mem s :
  mem (exec seedFromDOM s)
  = match blogList s with
    | None => ([], recentlyDeleted s, storage s)
    | Some cards =>
        let bl := Rec <$> imap (readCard (now s)) cards in
        (bl, recentlyDeleted s,
         if accepts s (stringifyEntry <$> bl)
         then Array (stringifyEntry <$> bl)
         else storage s)
    end.
Proof.
  unfold exec, seedFromDOM, bind, gets, modify.
  destruct (blogList s) as [[|c cards]|]; [| |reflexivity].
  - cbn beta iota. change (len [] =? 0)%Z with true. cbn beta iota.
    rewrite save_run. simpl_state.
    change (Rec <$> imap (readCard (now s)) []) with (@nil Entry).
    by destruct (accepts s (stringifyEntry <$> [])).
  - cbn beta iota.
    replace (len (c :: cards) =? 0)%Z with false
      by (symmetry; apply Z.eqb_neq; unfold len; cbn [length]; lia).
    cbn beta iota. rewrite save_run. simpl_state.
    by destruct (accepts s (stringifyEntry <$> _)).
Qed.

(** The single-post view writes [#singleBlog] and nothing else. *)
Lemma set_singleBlog_same s : set_singleBlog (singleBlog s) s = s.
Proof. by destruct s. Qed.

Lemma findPost_run idstr l : forall s, exists o, findPost idstr l s = (o, s).
Proof.
  induction l as [|e l IH]; intros s; [by eexists|].
  destruct e as [| |b]; cbn; [by eexists..|].
  destruct (String.eqb _ idstr); [by eexists|apply IH].
Qed.

Lemma renderSingleIfNeeded_run query s :
  exists o v, renderSingleIfNeeded query s = (o, set_singleBlog v s).
Proof.
  unfold renderSingleIfNeeded, bind, gets, modify.
  destruct (singleBlog s) as [out|] eqn:E.
  - destruct query as [idstr|]; [|by eexists _, _].
    destruct (negb (truthy idstr)); [by eexists _, _|].
    destruct (findPost_run idstr (blogs s) s) as [o ->].
    destruct o as [[p|]|]; [by eexists _, _..|].
    exists Threw, (Some out). by rewrite <- E, set_singleBlog_same.
  - exists (Returned tt), None. by rewrite <- E, set_singleBlog_same.
Qed.

Lemma onLoad_mem query s :
  mem (exec (onLoad query) s) = mem (exec initializeFromDOM s).
Proof.
  unfold exec, onLoad, bind.
  destruct (initializeFromDOM s) as [o s1]. destruct o; [|reflexivity].
  destruct (renderBlogs_run s1) as (o & v & ->). destruct o; [|reflexivity].
  destruct (renderSingleIfNeeded_run query (set_listView v s1)) as (o & w & ->).
  reflexivity.
Qed.

(** Ids, and the ids of one extraction pass. *)
Lemma ids_app l k : ids (l ++ k) = ids l ++ ids k.
Proof. apply bind_app. Qed.

Lemma ids_cons e l : ids (e :: l) = entryIds e ++ ids l.
Proof. apply bind_cons. Qed.

#[export] Instance ids_Permutation : Proper (Permutation ==> Permutation) ids.
Proof. intros l k H. unfold ids. by rewrite H. Qed.

Lemma ids_seeded t cards : forall k,
  ids (Rec <$> imap (fun i => readCard t (k + i)) cards)
  = (fun i => (t + Z.of_nat i)%Z) <$> seq k (length cards).
Proof.
  induction cards as [|c cards IH]; intros k; [reflexivity|].
  rewrite imap_cons, fmap_cons, ids_cons. cbn [entryIds length seq fmap list_fmap app].
  rewrite Nat.add_0_r. f_equal.
  rewrite <- (IH (S k)). do 2 f_equal. apply imap_ext. intros i x _. cbn.
  f_equal. lia.
Qed.

Lemma NoDup_ids_seeded t cards :
  NoDup (ids (Rec <$> imap (readCard t) cards)).
Proof.
  change (NoDup (ids (Rec <$> imap (fun i => readCard t (0 + i)) cards))).
  rewrite (ids_seeded t cards 0).
  apply NoDup_fmap_2; [|apply NoDup_seq].
  intros i j H. lia.
Qed.

Lemma liveIds_mem s s' : mem s = mem s' -> liveIds s = liveIds s'.
Proof.
  unfold mem, liveIds, pendingEntries. intros [= -> -> _]. done.
Qed.

Lemma liveIds_blogs s : NoDup (liveIds s) -> NoDup (ids (blogs s)).
Proof.
  unfold liveIds. rewrite ids_app. intros H. by apply NoDup_app in H as [? _].
Qed.

(** The guard of line 124 passes an integer only when it is a valid
    index. *)
Lemma guard_pass_Int {A} (l : list A) z :
  Js.lt (Int z) (Int 0) || Js.ge (Int z) (Int (len l)) = false ->
  (0 <= z < len l)%Z.
Proof.
  cbn. destruct (z <? 0)%Z eqn:E1, (len l <=? z)%Z eqn:E2; cbn; lia.
Qed.

Lemma fire_mem h s :
  blogs (exec (fire h) s) = blogs s
  /\ (recentlyDeleted (exec (fire h) s) = None
      \/ recentlyDeleted (exec (fire h) s) = recentlyDeleted s).
Proof.
  unfold exec, fire, expire, setDisplay, clearTimeout, bind, gets, modify, ret.
  destruct (filter _ (timers s)); [by auto|].
  simpl_state. destruct (undoMessage s); cbn; auto.
Qed.

(** One event keeps the ids of the store and the slot distinct,
    provided an [Add] reads a clock value none of them carries and the
    write of an [Undo] is taken. *)
Lemma step_NoDup s e :
  NoDup (liveIds s) ->
  match e with
  | Add _ => now s ∉ liveIds s
  | Undo => restoreAccepted s = true
  | _ => True
  end ->
  NoDup (liveIds (step s e)).
Proof.
  intros Hnd Hfresh. destruct e as [f|i| |ms|h|ok]; unfold step, handler.
  - destruct (addBlog_core f s) as (Hb & Hd).
    unfold liveIds, pendingEntries in *. rewrite Hb, Hd.
    change (?x :: blogs s ++ ?p) with ([x] ++ (blogs s ++ p)).
    rewrite <- app_comm_cons, ids_cons. cbn [entryIds id app].
    by apply NoDup_cons.
  - destruct (Js.lt i (Int 0) || Js.ge i (Int (len (blogs s)))) eqn:G.
    { unfold exec. by rewrite deleteBlog_stop. }
    apply liveIds_blogs in Hnd.
    destruct i as [z|].
    + apply guard_pass_Int in G. destruct (lookup_valid _ _ G) as [r Hr].
      destruct (deleteBlog_valid s z r G Hr) as (Hb & Hd).
      unfold liveIds, pendingEntries. rewrite Hb, Hd. cbn [blog].
      rewrite <- Permutation_cons_append, <- delete_Permutation; done.
    + destruct (deleteBlog_core NaN s G) as (Hb & Hd).
      unfold liveIds, pendingEntries. rewrite Hb, Hd.
      cbn [blog Js.get default].
      rewrite splice_delete_NaN, ids_app, app_nil_r.
      destruct (blogs s) as [|a bl]; [done|].
      rewrite ids_cons in Hnd. by apply NoDup_app in Hnd as (_ & _ & ?).
  - destruct (recentlyDeleted s) as [d|] eqn:Hd.
    + pose proof (undoDelete_core s d Hd) as Hb.
      pose proof (undoDelete_slot s d Hd) as Hd'. rewrite Hfresh in Hd'.
      unfold liveIds, pendingEntries in *. rewrite Hb, Hd'. rewrite Hd in Hnd.
      rewrite app_nil_r, splice_insert_perm, Permutation_cons_append. done.
    + unfold exec. by rewrite undoDelete_idle.
  - done.
  - destruct (fire_mem h s) as [Hb [Hd|Hd]]; fold (exec (fire h) s).
    + unfold liveIds, pendingEntries. rewrite Hb, Hd, app_nil_r.
      by apply liveIds_blogs.
    + unfold liveIds, pendingEntries in *. by rewrite Hb, Hd.
  - done.
Qed.

Lemma run_NoDup evs : forall s,
  NoDup (liveIds s) -> freshAdds evs s -> restoresSaved evs s ->
  NoDup (liveIds (run evs s)).
Proof.
  induction evs as [|e evs IH]; intros s Hnd Hf Hw; [done|].
  destruct Hf as [He Hf]. destruct Hw as [Hu Hw]. cbn.
  apply IH; [|done..]. apply step_NoDup; [done|]. by destruct e.
Qed.

(** The store a page load builds has distinct ids: those of one
    extraction pass, or those of the persisted list. *)
Lemma seedFromDOM_NoDup s :
  recentlyDeleted s = None -> NoDup (liveIds (exec seedFromDOM s)).
Proof.
  intros Hrd. pose proof (seedFromDOM_mem s) as Hm.
  unfold liveIds, pendingEntries.
  destruct (blogList s) as [cards|]; cbv zeta in Hm;
    apply mem_inv in Hm as (-> & -> & _); rewrite Hrd, app_nil_r.
  - apply NoDup_ids_seeded.
  - apply NoDup_nil_2.
Qed.

Lemma initializeFromDOM_NoDup s :
  recentlyDeleted s = None ->
  (forall l, storage s = Array l -> NoDup (ids l)) ->
  NoDup (liveIds (exec initializeFromDOM s)).
Proof.
  intros Hrd Hst. unfold exec. rewrite initializeFromDOM_cases.
  pose proof (seedFromDOM_NoDup s Hrd) as Hseed. unfold exec in Hseed.
  destruct (storage s) as [| | | |[|e l]] eqn:E; try exact Hseed.
  unfold liveIds, pendingEntries. cbn [snd]. simpl_state.
  rewrite Hrd, app_nil_r. by apply Hst.
Qed.

End SeedFacts.

Module Seeding.

Import Js JsFacts BlogCrud StoreFacts SeedFacts.

(** C1, as stated, fails: with the empty list persisted and one card in
    the static markup, [initializeFromDOM] does not keep the persisted
    empty list; it runs the extraction and the store becomes the record
    read from the card. *)
Lemma persisted_empty_list_is_rescanned :
  let s := fresh (Array []) (fun _ => true) 1700000000000 (Some [cardHello]) None None in
  storage s = Array []
  /\ initializeFromDOM s <> (Returned tt, set_blogs [] s)
  /\ blogs (exec initializeFromDOM s)
     = [Rec (mkPost 1700000000000 "Hello" (Some EmptyString) "First post." "hello.html")].
Proof.
  cbv zeta. split; [reflexivity|]. split; [|by vm_compute].
  intros H. apply (f_equal (fun r => length (blogs (snd r)))) in H.
  vm_compute in H. discriminate.
Qed.

(** C1, amended. A persisted empty list does not stop the extraction:
    line 26 lets only a non-empty array through, so with [[]] persisted
    [initializeFromDOM] runs the extraction branch exactly as it does
    with nothing stored. When the container has no cards, the store is
    [[]] again and [[]] is persisted again, so the state differs from the
    one before only by the store being emptied; when it has cards, the
    store is seeded from them. *)
Theorem persisted_empty_list_reseeds s :
  storage s = Array [] ->
  initializeFromDOM s = seedFromDOM s
  /\ (blogList s = Some [] -> exec initializeFromDOM s = set_blogs [] s)
  /\ (forall c cards,
        blogList s = Some (c :: cards) ->
        blogs (exec initializeFromDOM s)
        = Rec <$> imap (readCard (now s)) (c :: cards)).
Proof.
  intros Hst.
  assert (E : initializeFromDOM s = seedFromDOM s).
  { rewrite initializeFromDOM_cases. by rewrite Hst. }
  split; [done|]. split.
  - intros Hc. unfold exec. rewrite E.
    unfold seedFromDOM, bind, gets, modify. rewrite Hc.
    cbn beta iota. change (len [] =? 0)%Z with true. cbn beta iota.
    rewrite save_run. simpl_state.
    destruct (accepts s (stringifyEntry <$> [])); [|done].
    destruct s; cbn in *. by subst.
  - intros c cards Hc. unfold exec. rewrite E.
    pose proof (seedFromDOM_mem s) as Hm. rewrite Hc in Hm.
    by apply mem_inv in Hm as (Hb & _).
Qed.

Lemma persisted_empty_list_reseeds_witness :
  let s := fresh (Array []) (fun _ => true) 1700000000000 (Some [cardHello]) None None in
  initializeFromDOM s = seedFromDOM s
  /\ (blogList s = Some [] -> exec initializeFromDOM s = set_blogs [] s)
  /\ (forall c cards,
        blogList s = Some (c :: cards) ->
        blogs (exec initializeFromDOM s)
        = Rec <$> imap (readCard (now s)) (c :: cards)).
Proof.
  apply (persisted_empty_list_reseeds
           (fresh (Array []) (fun _ => true) 1700000000000 (Some [cardHello]) None None)).
  reflexivity.
Defined.

(** Line 26 in full: the stored value is used exactly when it is a
    non-empty array. *)
Lemma initializeFromDOM_hydrates s e l :
  storage s = Array (e :: l) ->
  initializeFromDOM s = (Returned tt, set_blogs (e :: l) s).
Proof. intros H. rewrite initializeFromDOM_cases. by rewrite H. Qed.

(** C2, as stated, fails: two [addBlog] calls with no time passing
    between them read the same clock value, and the two new records
    carry the same id. *)
Lemma same_millisecond_adds_share_id :
  let s := exec (onLoad None)
             (fresh NoItem (fun _ => true) 1700000000000 (Some []) None None) in
  ids (blogs (run [Add untitled; Add untitled] s))
  = [1700000000000%Z; 1700000000000%Z]
  /\ ~ NoDup (ids (blogs (run [Add untitled; Add untitled] s))).
Proof.
  cbv zeta.
  assert (E : ids (blogs (run [Add untitled; Add untitled]
                            (exec (onLoad None)
                               (fresh NoItem (fun _ => true) 1700000000000 (Some []) None None))))
              = [1700000000000%Z; 1700000000000%Z]) by (by vm_compute).
  split; [exact E|]. rewrite E. intros H.
  apply NoDup_cons in H as [Hin _]. apply Hin. by left.
Qed.

(** Nor does the positional offset of the seeding protect a later add: one
    millisecond after an extraction pass over two cards, [addBlog] takes
    the id the second card was given. *)
Example add_after_seeding_collides :
  let s := exec (onLoad None)
             (fresh NoItem (fun _ => true) 1700000000000 (Some [cardHello; cardHello])
                None None) in
  ids (blogs (run [Elapse 1%N; Add untitled] s))
  = [1700000000001%Z; 1700000000000%Z; 1700000000001%Z].
Proof. by vm_compute. Qed.

(** A restore whose write storage refuses leaves the record both in the
    store and in the slot; a second restore then puts it into the store
    once more, and two records carry the same id. *)
Example restore_after_refused_write_duplicates :
  let s := page [Rec postA; Rec postB] (Some hiddenBox) in
  let evs := [Delete (Int 0); Storage (fun _ => false); Undo; Undo] in
  blogs (run evs s) = [Rec postA; Rec postA; Rec postB]
  /\ ids (blogs (run evs s)) = [1%Z; 1%Z; 2%Z].
Proof. by vm_compute. Qed.

(** C2, amended. From a page load on, over every sequence of [addBlog],
    [deleteBlog], [undoDelete] calls, timer events and changes of what
    storage takes, in which each [addBlog] runs at a clock value that no
    record of the store or of the pending slot carries as its id and the
    write of each [undoDelete] is taken, no two records of the store
    carry the same id after any event, and none shares its id with the
    record in the pending slot. The writes of the load, of [addBlog] and
    of [deleteBlog] may be taken or refused. The load seeds from the
    markup (ids [Date.now() + i], distinct within the pass) or takes a
    persisted list, whose ids are assumed distinct. *)
Theorem ids_unique_with_fresh_adds st ok t cards box single query evs :
  (forall l, st = Array l -> NoDup (ids l)) ->
  let s0 := exec (onLoad query) (fresh st ok t cards box single) in
  freshAdds evs s0 ->
  restoresSaved evs s0 ->
  NoDup (ids (blogs (run evs s0))) /\ NoDup (liveIds (run evs s0)).
Proof.
  intros Hst s0 Hf Hw.
  assert (H0 : NoDup (liveIds s0)).
  { unfold s0. rewrite (liveIds_mem _ _ (onLoad_mem query _)).
    by apply initializeFromDOM_NoDup. }
  pose proof (run_NoDup evs s0 H0 Hf Hw) as H.
  split; [by apply liveIds_blogs|done].
Qed.

Lemma ids_unique_with_fresh_adds_witness :
  let s0 := exec (onLoad None)
              (fresh NoItem (fun _ => true) 1700000000000 (Some [cardHello; cardHello])
                 (Some hiddenBox) None) in
  let evs := [Elapse 5%N; Add untitled; Delete (Int 1); Elapse 1%N;
              Add untitled; Undo] in
  NoDup (ids (blogs (run evs s0))) /\ NoDup (liveIds (run evs s0)).
Proof.
  apply (ids_unique_with_fresh_adds NoItem (fun _ => true) 1700000000000
           (Some [cardHello; cardHello]) (Some hiddenBox) None None).
  - intros l H. discriminate.
  - vm_compute. repeat split; intros H;
      repeat (apply elem_of_cons in H as [H|H]; [discriminate|]);
      by apply elem_of_nil in H.
  - vm_compute. repeat split.
Defined.

End Seeding.

(** ** The expiry timer *)

Module TimerFacts.

Import Js JsFacts BlogCrud StoreFacts SeedFacts.
Local Open Scope js_scope.

Lemma seedFromDOM_quiet s : quiet s -> quiet (exec seedFromDOM s).
Proof.
  intros Hq. unfold exec, seedFromDOM, bind, gets, modify.
  destruct (blogList s) as [cards|]; [|done].
  cbn beta iota. destruct (len cards =? 0)%Z; cbn beta iota; rewrite save_run;
    match goal with
    | |- context [if ?c then _ else _] => destruct c
    end; done.
Qed.

Lemma onLoad_quiet query s : quiet s -> quiet (exec (onLoad query) s).
Proof.
  intros Hq. unfold exec, onLoad, bind.
  assert (H1 : quiet (snd (initializeFromDOM s))).
  { rewrite initializeFromDOM_cases.
    pose proof (seedFromDOM_quiet s Hq) as Hs. unfold exec in Hs.
    destruct (storage s) as [| | | |[|e l]]; try exact Hs. exact Hq. }
  destruct (initializeFromDOM s) as [o s1]. cbn [snd] in H1.
  destruct o; [|done].
  destruct (renderBlogs_run s1) as (o & v & ->). destruct o; [|done].
  destruct (renderSingleIfNeeded_run query (set_listView v s1)) as (o & w & ->).
  done.
Qed.

(** No handler schedules a timer on such a page. *)
Lemma step_quiet s e : quiet s -> quiet (step s e).
Proof.
  intros [Hbox Htm]. destruct e as [f|i| |ms|h|ok]; unfold step, handler.
  - unfold exec. destruct (addBlog_run f s) as (o & v & ->).
    by destruct (addAccepted f s).
  - destruct (Js.lt i (Int 0) || Js.ge i (Int (len (blogs s)))) eqn:G.
    { unfold exec. by rewrite deleteBlog_stop. }
    unfold exec. destruct (deleteAccepted i s) eqn:Hw.
    + destruct (deleteBlog_pass i s G Hw) as (o & v & _ & ->).
      destruct o; [|done]. by rewrite showUndo_absent.
    + by rewrite deleteBlog_reject.
  - destruct (recentlyDeleted s) as [d|] eqn:Hd.
    + destruct (restoreAccepted s) eqn:Hw.
      * unfold exec, undoDelete, setDisplay, clearTimeout, bind, gets, modify.
        rewrite Hd. cbn beta iota. fold (restored d s). rewrite save_run.
        unfold restoreAccepted in Hw. rewrite Hd in Hw.
        change (accepts (restored d s)) with (accepts s). rewrite Hw.
        cbn beta iota. unfold restored. simpl_state.
        match goal with
        | |- context [renderBlogs ?s2] =>
            destruct (renderBlogs_run s2) as (o & v & ->)
        end.
        simpl_state. rewrite Hbox. destruct o; [|done].
        simpl_state. destruct (undoTimeout s); [|done].
        split; [done|]. simpl_state. by rewrite Htm.
      * unfold exec. by rewrite (undoDelete_reject s d).
    + unfold exec. by rewrite undoDelete_idle.
  - done.
  - unfold exec, fire, bind, gets. by rewrite Htm.
  - done.
Qed.

Lemma run_quiet evs : forall s, quiet s -> quiet (run evs s).
Proof.
  induction evs as [|e evs IH]; intros s Hq; [done|].
  cbn. apply IH. by apply step_quiet.
Qed.

(** With nothing scheduled, time passing and timer events leave the
    store and the pending slot alone. *)
Lemma time_passes_quiet evs : forall s,
  quiet s -> forallb isTimeEvent evs = true -> mem (run evs s) = mem s.
Proof.
  induction evs as [|e evs IH]; intros s Hq Hev; [done|].
  cbn in Hev. apply andb_prop in Hev as [He Hev].
  cbn. rewrite IH; [|by apply step_quiet|done].
  destruct e; try discriminate; [done|].
  destruct Hq as [_ Htm]. unfold step, handler, exec, fire, bind, gets.
  by rewrite Htm.
Qed.

End TimerFacts.

Module Undo.

Import Js JsFacts BlogCrud StoreFacts SeedFacts TimerFacts.

(** C10. On a page that has no [#undoMessage] element, [showUndo]
    returns before it reaches [setTimeout]: after any run of the page,
    whatever storage takes, and a delete at a valid index no expiry is
    scheduled, the slot holds
    the removed element, and it still holds it after any amount of time
    and any timer events; [undoDelete] then restores the store of before
    the delete. The six-second window does not apply. *)
Theorem pending_never_expires_without_box
    st ok t cards single query evs1 z evs2 :
  let s := run evs1 (exec (onLoad query) (fresh st ok t cards None single)) in
  (0 <= z < len (blogs s))%Z ->
  forallb isTimeEvent evs2 = true ->
  let s1 := exec (deleteBlog (Int z)) s in
  let s2 := run evs2 s1 in
  timers s1 = []
  /\ undoTimeout s1 = undoTimeout s
  /\ (exists r,
        blogs s !! Z.to_nat z = Some r
        /\ recentlyDeleted s1 = Some (mkDeleted r (Int z))
        /\ recentlyDeleted s2 = Some (mkDeleted r (Int z)))
  /\ blogs (exec undoDelete s2) = blogs s.
Proof.
  intros s Hz Hev s1 s2.
  assert (Hq : quiet s).
  { apply run_quiet, onLoad_quiet. by split. }
  assert (Hq1 : quiet s1) by apply (step_quiet s (Delete (Int z)) Hq).
  destruct (lookup_valid _ _ Hz) as [r Hr].
  destruct (deleteBlog_valid s z r Hz Hr) as (Hb1 & Hd1).
  fold s1 in Hb1, Hd1.
  pose proof (time_passes_quiet evs2 s1 Hq1 Hev) as Hm. fold s2 in Hm.
  unfold mem in Hm. injection Hm as Hb2 Hd2 _.
  split; [apply Hq1|]. split.
  - pose proof (guard_valid _ _ Hz) as G.
    unfold s1, exec. destruct (deleteAccepted (Int z) s) eqn:Hw.
    + destruct (deleteBlog_pass (Int z) s G Hw) as (o & v & _ & ->).
      destruct o; [|done]. rewrite showUndo_absent; [done|apply Hq].
    + by rewrite deleteBlog_reject.
  - split; [exists r; by rewrite Hd2|].
    rewrite Hd1 in Hd2.
    rewrite (undoDelete_core s2 _ Hd2). cbn [index blog].
    rewrite Hb2, Hb1.
    assert (Hlen : len (delete (Z.to_nat z) (blogs s)) = (len (blogs s) - 1)%Z).
    { unfold len in *. rewrite length_delete by by eexists. lia. }
    rewrite splice_insert_at, spliceStart_min by lia. cbv zeta.
    rewrite Hlen. replace (Z.min z (len (blogs s) - 1)) with z by lia.
    by rewrite reinsert_deleted.
Qed.

Lemma pending_never_expires_without_box_witness :
  let s := run [Add untitled]
             (exec (onLoad None)
                (fresh NoItem (fun _ => true) 1700000000000 (Some [cardHello]) None None)) in
  let s1 := exec (deleteBlog (Int 1)) s in
  let s2 := run [Elapse 6000%N; Fire 1; Elapse 3600000%N] s1 in
  timers s1 = []
  /\ undoTimeout s1 = undoTimeout s
  /\ (exists r,
        blogs s !! Z.to_nat 1 = Some r
        /\ recentlyDeleted s1 = Some (mkDeleted r (Int 1))
        /\ recentlyDeleted s2 = Some (mkDeleted r (Int 1)))
  /\ blogs (exec undoDelete s2) = blogs s.
Proof.
  apply (pending_never_expires_without_box NoItem (fun _ => true) 1700000000000
           (Some [cardHello]) None None [Add untitled] 1
           [Elapse 6000%N; Fire 1; Elapse 3600000%N]).
  - vm_compute. split; [discriminate | reflexivity].
  - reflexivity.
Defined.

(** For contrast, the same deletion on a page that has the element: the
    timer is scheduled, and once it has run the slot is empty and
    [undoDelete] restores nothing. *)
Example pending_expires_with_box :
  let s := page [Rec postA; Rec postB] (Some hiddenBox) in
  let s1 := exec (deleteBlog (Int 0)) s in
  let s2 := run [Elapse 6000%N; Fire 1] s1 in
  timers s1 = [mkTimer 1 1700000006000]
  /\ recentlyDeleted s2 = None
  /\ blogs (exec undoDelete s2) = [Rec postB].
Proof. by vm_compute. Qed.

End Undo.

(** ** Escaping *)

Module EscapeFacts.

Import Js JsFacts BlogCrud.

Lemma count_app c s1 s2 : count c (s1 +:+ s2) = count c s1 + count c s2.
Proof.
  induction s1 as [|a s1 IH]; [reflexivity|].
  rewrite append_cons. cbn [count]. rewrite IH. lia.
Qed.

(** A pass removes every occurrence of the character it replaces. *)
Lemma count_replaceAll_same c r s :
  count c r = 0 -> count c (replaceAll c r s) = 0.
Proof.
  intros Hr. induction s as [|a s IH]; [reflexivity|].
  cbn [replaceAll]. destruct (Ascii.eqb a c) eqn:E.
  - rewrite count_app. lia.
  - cbn [count]. rewrite E. exact IH.
Qed.

(** A pass adds no occurrence of a character its replacement lacks. *)
Lemma count_replaceAll_other c d r s :
  count d r = 0 -> count d s = 0 -> count d (replaceAll c r s) = 0.
Proof.
  intros Hr. induction s as [|a s IH]; [reflexivity|].
  cbn [count replaceAll]. intros Hs.
  destruct (Ascii.eqb a c) eqn:E.
  - rewrite count_app. lia.
  - cbn [count]. destruct (Ascii.eqb a d); [discriminate|]. apply IH. lia.
Qed.

Lemma prefix_replaceAll c r e : forall u,
  count c e = 0 ->
  String.prefix e u = true -> String.prefix e (replaceAll c r u) = true.
Proof.
  induction e as [|x e IH]; intros u Hc Hp.
  - by destruct (replaceAll c r u).
  - destruct u as [|y u]; [discriminate|]. cbn in Hp, Hc.
    destruct (ascii_dec x y) as [<-|]; [|discriminate].
    destruct (Ascii.eqb x c) eqn:E; [discriminate|].
    cbn [replaceAll]. rewrite E. cbn.
    destruct (ascii_dec x x); [|done]. by apply IH.
Qed.

Lemma existsb_prefix_mono (P Q : string -> bool) (es : list string) :
  (forall e, e ∈ es -> P e = true -> Q e = true) ->
  existsb P es = true -> existsb Q es = true.
Proof.
  intros H. rewrite !existsb_exists. intros (e & Hin & Hp).
  exists e. split; [done|]. apply H; [|done]. by apply list_elem_of_In.
Qed.

Lemma amps_app s1 s2 :
  ampsAreEntities s1 = true -> ampsAreEntities s2 = true ->
  ampsAreEntities (s1 +:+ s2) = true.
Proof.
  intros H1 H2. induction s1 as [|a s1 IH]; [exact H2|].
  rewrite append_cons. cbn [ampsAreEntities] in *.
  apply andb_prop in H1 as [Ha H1]. apply andb_true_intro. split; [|by apply IH].
  destruct (Ascii.eqb a "&"); [|done].
  revert Ha. apply existsb_prefix_mono. intros e _ Hp.
  rewrite <- append_cons. by apply prefix_append.
Qed.

Lemma amps_of_count s : count "&" s = 0 -> ampsAreEntities s = true.
Proof.
  induction s as [|a s IH]; [done|]. cbn [count ampsAreEntities].
  destruct (Ascii.eqb a "&"); [discriminate|]. intros H. by apply IH.
Qed.

(** The first pass leaves every ampersand at the head of [&amp;]. *)
Lemma amps_replaceAll_amp s : ampsAreEntities (replaceAll "&" "&amp;" s) = true.
Proof.
  induction s as [|a s IH]; [done|]. cbn [replaceAll].
  destruct (Ascii.eqb a "&") eqn:E.
  - by apply amps_app.
  - cbn [ampsAreEntities]. by rewrite E.
Qed.

(** A later pass replaces a character no entity contains, by an entity. *)
Lemma amps_replaceAll_other c r s :
  Ascii.eqb c "&" = false ->
  Forall (fun e => count c e = 0) entities ->
  ampsAreEntities r = true ->
  ampsAreEntities s = true ->
  ampsAreEntities (replaceAll c r s) = true.
Proof.
  intros Hc He Hr. induction s as [|a s IH]; [done|].
  cbn [ampsAreEntities]. intros H. apply andb_prop in H as [Ha Hs].
  cbn [replaceAll]. destruct (Ascii.eqb a c) eqn:E.
  - apply amps_app; [done|by apply IH].
  - cbn [ampsAreEntities]. apply andb_true_intro. split; [|by apply IH].
    destruct (Ascii.eqb a "&"); [|done].
    revert Ha. apply existsb_prefix_mono. intros e Hin Hp.
    rewrite Forall_forall in He.
    pose proof (prefix_replaceAll c r e (String a s) (He e Hin) Hp) as Hq.
    cbn [replaceAll] in Hq. by rewrite E in Hq.
Qed.

(** What the four passes of [escapeHtml] achieve together. *)
Lemma escapeHtml_safe str :
  count "<" (escapeHtml str) = 0
  /\ count ">" (escapeHtml str) = 0
  /\ count dquote (escapeHtml str) = 0
  /\ ampsAreEntities (escapeHtml str) = true.
Proof.
  unfold escapeHtml. destruct (negb (truthy str)); [done|].
  repeat split.
  - apply count_replaceAll_other; [done|]. by apply count_replaceAll_same.
  - by apply count_replaceAll_same.
  - apply count_replaceAll_other; [done|].
    apply count_replaceAll_other; [done|]. by apply count_replaceAll_same.
  - apply amps_replaceAll_other; [done| by repeat constructor |done|].
    apply amps_replaceAll_other; [done| by repeat constructor |done|].
    apply amps_replaceAll_other; [done| by repeat constructor |done|].
    apply amps_replaceAll_amp.
Qed.

Lemma specials_cases c :
  c ∈ specials -> c = "&"%char \/ c = dquote \/ c = "<"%char \/ c = ">"%char.
Proof.
  unfold specials. intros H.
  repeat (apply elem_of_cons in H as [H|H]; [by auto|]).
  by apply elem_of_nil in H.
Qed.

(** A number in decimal has none of the four characters. *)
Lemma count_digits c d :
  c ∈ specials -> count c (NilEmpty.string_of_uint d) = 0.
Proof.
  intros Hc. apply specials_cases in Hc.
  induction d; cbn [NilEmpty.string_of_uint count]; [done|..];
    rewrite IHd; destruct Hc as [->|[->|[->| ->]]]; done.
Qed.

Lemma count_numToString c z :
  c ∈ specials -> count c (numToString z) = 0.
Proof.
  intros Hc. unfold numToString, NilZero.string_of_int, NilZero.string_of_uint.
  assert (Hm : count c "-" = 0).
  { apply specials_cases in Hc. by destruct Hc as [->|[->|[->| ->]]]. }
  assert (H0 : count c "0" = 0).
  { apply specials_cases in Hc. by destruct Hc as [->|[->|[->| ->]]]. }
  destruct (Z.to_int z) as [d|d].
  - destruct d; first [exact H0 | by apply count_digits].
  - change (String "-" ?x) with ("-" +:+ x). rewrite count_app, Hm.
    destruct d; first [exact H0 | by apply count_digits].
Qed.

End EscapeFacts.

Module Render.

Import Js JsFacts BlogCrud EscapeFacts.

Ltac count_markup :=
  rewrite ?count_app;
  repeat match goal with
    | |- context [count ?c (escapeHtml ?x)] =>
        let H := fresh in
        assert (H : count c (escapeHtml x) = 0)
          by (destruct (escapeHtml_safe x) as (? & ? & ? & ?); assumption);
        rewrite H; clear H
    | |- context [count ?c (numToString ?z)] =>
        rewrite (count_numToString c z) by (unfold specials; repeat constructor)
    end;
  reflexivity.

Ltac amps_markup :=
  repeat match goal with
    | |- ampsAreEntities (_ +:+ _) = true => apply amps_app
    end;
  first [ reflexivity
        | apply escapeHtml_safe
        | apply amps_of_count, count_numToString; unfold specials; repeat constructor ].

(** C8. Whatever the title, content, image source and link of a record
    contain, [escapeHtml] returns a text with no [<], no [>] and no
    double quote, in which every [&] starts one of [&amp;], [&quot;],
    [&lt;], [&gt;]; and in the markup of the record's card the numbers of
    [<], [>] and double quotes are those of the template alone (they
    depend only on whether the card has an image block), and every [&]
    starts one of the four entities. *)
Theorem rendered_text_is_escaped :
  (forall str,
      count "<" (escapeHtml str) = 0
      /\ count ">" (escapeHtml str) = 0
      /\ count dquote (escapeHtml str) = 0
      /\ ampsAreEntities (escapeHtml str) = true)
  /\ (forall b idx,
        let n := if hasImage b then 1 else 0 in
        count "<" (cardHtml b idx) = 12 + 3 * n
        /\ count ">" (cardHtml b idx) = 12 + 3 * n
        /\ count dquote (cardHtml b idx) = 16 + 6 * n
        /\ ampsAreEntities (cardHtml b idx) = true).
Proof.
  split; [apply escapeHtml_safe|].
  intros b idx.
  unfold cardHtml, imageHtml, titleHtml, excerptHtml, footerHtml, hasImage.
  destruct (image b) as [src|]; [destruct (truthy src)|]; cbv zeta;
    (split; [count_markup|]); (split; [count_markup|]);
    (split; [count_markup|]); amps_markup.
Qed.

Example escapeHtml_demo :
  escapeHtml ("<b>Tom & " +:+ dq +:+ "Jerry" +:+ dq +:+ "</b>")
  = "&lt;b&gt;Tom &amp; &quot;Jerry&quot;&lt;/b&gt;".
Proof. reflexivity. Qed.

End Render.

(** ** Further properties: adding, persisting, reloading *)

Module Persist.

Import Js JsFacts BlogCrud StoreFacts SeedFacts.

Lemma orElse_truthy v d : truthy d = true -> truthy (orElse v d) = true.
Proof.
  intros Hd. unfold orElse. destruct v as [x|]; [|done].
  by destruct (truthy x) eqn:E.
Qed.

(** What [addBlog] leaves when storage refuses its write: the record is
    in the store, nothing else has changed. *)
Lemma addBlog_reject f s :
  addAccepted f s = false ->
  addBlog f s = (Threw, set_blogs (Rec (newBlog f (now s)) :: blogs s) s).
Proof.
  intros Hw. destruct (addBlog_run f s) as (o & v & ->). by rewrite Hw.
Qed.

Lemma addBlog_storage f s :
  storage (exec (addBlog f) s)
  = if addAccepted f s
    then Array (stringifyEntry <$> (Rec (newBlog f (now s)) :: blogs s))
    else storage s.
Proof.
  unfold exec. destruct (addBlog_run f s) as (o & v & ->).
  by destruct (addAccepted f s).
Qed.

(** X1. [addBlog] puts one new record in front of the store and leaves the
    rest in place: the new record has the clock reading as id, a title
    that is never empty and an image that is never [null]; the pending
    slot is untouched. The lengthened store is persisted when storage
    takes the write; when it refuses, [addBlog] throws at [save], the
    record stays in the store, and the persisted item, the view and the
    rest of the state are as before. *)
Theorem addBlog_prepends s f :
  let s' := exec (addBlog f) s in
  exists p,
    blogs s' = Rec p :: blogs s
    /\ id p = now s
    /\ truthy (title p) = true
    /\ image p <> None
    /\ len (blogs s') = (len (blogs s) + 1)%Z
    /\ recentlyDeleted s' = recentlyDeleted s
    /\ storage s'
       = (if addAccepted f s then Array (stringifyEntry <$> blogs s')
          else storage s)
    /\ (addAccepted f s = false ->
        addBlog f s = (Threw, set_blogs (Rec p :: blogs s) s)).
Proof.
  intros s'. destruct (addBlog_core f s) as (Hb & Hd). fold s' in Hb, Hd.
  exists (newBlog f (now s)). split; [exact Hb|]. cbn [id title image newBlog].
  split; [done|]. split; [by apply orElse_truthy|]. split; [done|].
  split; [|split; [done|split]].
  - rewrite Hb. unfold len. cbn [length]. lia.
  - rewrite Hb. unfold s'. by rewrite addBlog_storage.
  - apply addBlog_reject.
Qed.

(** X2. A handler whose write storage takes leaves the persisted item
    equal to the serialized store when it was so before, and [addBlog]
    makes it so whatever was persisted before; the events that write
    nothing keep it so too. A handler whose write is refused leaves the
    persisted item as it was. *)
Theorem handlers_keep_storage_synced s :
  (forall f, addAccepted f s = true -> synced (step s (Add f)))
  /\ (synced s -> forall e, writeAccepted s e = true -> synced (step s e))
  /\ (forall e, writeAccepted s e = false -> storage (step s e) = storage s).
Proof.
  assert (Hadd : forall f, addAccepted f s = true -> synced (step s (Add f))).
  { intros f Hw. unfold synced, step, handler.
    rewrite addBlog_storage, Hw. by destruct (addBlog_core f s) as (-> & _). }
  split; [exact Hadd|]. split.
  - intros Hs e Hw. destruct e as [f|i| |ms|h|ok]; [by apply Hadd|..];
      unfold synced, step, handler in *; cbn [writeAccepted] in Hw.
    + destruct (Js.lt i (Int 0) || Js.ge i (Int (len (blogs s)))) eqn:G.
      { unfold exec. by rewrite deleteBlog_stop. }
      cbn [orb] in Hw.
      destruct (mem_eq_inv _ _ (deleteBlog_mem i s G Hw)) as (-> & _ & ->).
      done.
    + destruct (recentlyDeleted s) as [d|] eqn:Hd.
      * destruct (mem_eq_inv _ _ (undoDelete_mem s d Hd Hw)) as (-> & _ & ->).
        done.
      * unfold exec. by rewrite undoDelete_idle.
    + done.
    + destruct (fire_mem h s) as [Hb _]. fold (exec (fire h) s).
      rewrite Hb. rewrite <- Hs.
      unfold exec, fire, expire, setDisplay, clearTimeout, bind, gets, modify, ret.
      destruct (filter _ (timers s)); [done|].
      simpl_state. by destruct (undoMessage s).
    + done.
  - intros e Hw. destruct e as [f|i| |ms|h|ok]; cbn [writeAccepted] in Hw;
      try discriminate; unfold step, handler.
    + by rewrite addBlog_storage, Hw.
    + apply orb_false_elim in Hw as [G Hw].
      unfold exec. by rewrite deleteBlog_reject.
    + destruct (recentlyDeleted s) as [d|] eqn:Hd.
      * unfold exec. by rewrite (undoDelete_reject s d).
      * unfold restoreAccepted in Hw. rewrite Hd in Hw. discriminate.
Qed.

Lemma handlers_keep_storage_synced_witness :
  let s := page [Rec postA; Rec postB] (Some hiddenBox) in
  synced (step s (Delete (Int 1))) /\ synced (step s Undo)
  /\ storage (step (fullPage [Rec postA] None) (Add untitled))
     = storage (fullPage [Rec postA] None).
Proof.
  destruct (handlers_keep_storage_synced
              (page [Rec postA; Rec postB] (Some hiddenBox))) as (_ & H & _).
  destruct (handlers_keep_storage_synced (fullPage [Rec postA] None))
    as (_ & _ & H').
  split; [|split]; [apply H; reflexivity..|].
  apply (H' (Add untitled)). reflexivity.
Defined.

Lemma stringify_records l :
  Forall (fun e => e <> Undefined) l -> stringifyEntry <$> l = l.
Proof.
  induction 1 as [|e l He _ IH]; [done|].
  cbn. rewrite IH. by destruct e.
Qed.

(** X3. Save, then load: a page load over the item a synced, non-empty store
    left behind takes that list as the store, whatever the markup holds
    and whatever storage takes; element for element it is the store that
    was saved, with [null] where the store held [undefined]. *)
Theorem reload_restores_store s ok t cards box single query :
  synced s ->
  blogs s <> [] ->
  let s' := exec (onLoad query) (fresh (storage s) ok t cards box single) in
  blogs s' = stringifyEntry <$> blogs s
  /\ storage s' = storage s
  /\ (Forall (fun e => e <> Undefined) (blogs s) -> blogs s' = blogs s).
Proof.
  intros Hs Hne s'.
  pose proof (onLoad_mem query (fresh (storage s) ok t cards box single)) as Hm.
  fold s' in Hm. unfold exec in Hm. rewrite initializeFromDOM_cases in Hm.
  cbn [storage fresh] in Hm. rewrite Hs in Hm.
  destruct (blogs s) as [|e l] eqn:E; [done|].
  cbn [fmap list_fmap] in Hm. unfold mem in Hm. cbn in Hm.
  injection Hm as Hb _ Hst.
  split; [exact Hb|]. split; [by rewrite Hst, Hs, E|].
  intros Hf. rewrite Hb. apply (stringify_records (e :: l) Hf).
Qed.

Lemma reload_restores_store_witness :
  let s := step (page [Rec postA; Rec postB] (Some hiddenBox)) (Add untitled) in
  let s' := exec (onLoad None)
              (fresh (storage s) (fun _ => true) 1700000000999
                 (Some [cardHello]) None None) in
  blogs s' = stringifyEntry <$> blogs s
  /\ storage s' = storage s
  /\ (Forall (fun e => e <> Undefined) (blogs s) -> blogs s' = blogs s).
Proof.
  apply (reload_restores_store
           (step (page [Rec postA; Rec postB] (Some hiddenBox)) (Add untitled))).
  - reflexivity.
  - vm_compute. discriminate.
Defined.

End Persist.

(** ** Further properties: the list view *)

Module ListView.

Import Js JsFacts BlogCrud StoreFacts.

Lemma set_listView_twice v w s : set_listView v (set_listView w s) = set_listView v s.
Proof. reflexivity. Qed.

Lemma cardsFrom_cons idx p ps :
  cardsFrom idx (p :: ps) = cardHtml p idx :: cardsFrom (S idx) ps.
Proof.
  unfold cardsFrom. rewrite imap_cons. rewrite Nat.add_0_r. f_equal.
  apply imap_ext. intros i x _. cbn. f_equal. lia.
Qed.

(** The loop over records only: one card each, in order. *)
Lemma renderFrom_records ps : forall idx s,
  renderFrom idx (Rec <$> ps) s
  = (Returned tt, set_listView (listView s ++ cardsFrom idx ps) s).
Proof.
  induction ps as [|p ps IH]; intros idx s.
  - cbn. unfold ret, cardsFrom. cbn. by rewrite app_nil_r, set_listView_same.
  - cbn [fmap list_fmap renderFrom]. unfold bind, modify.
    rewrite IH. simpl_state. rewrite cardsFrom_cons.
    by rewrite <- app_assoc.
Qed.

(** The loop reaching an entry that is no record. *)
Lemma renderFrom_hole ps e rest : forall idx s,
  isRec e = false ->
  renderFrom idx ((Rec <$> ps) ++ e :: rest) s
  = (Threw, set_listView (listView s ++ cardsFrom idx ps) s).
Proof.
  induction ps as [|p ps IH]; intros idx s He.
  - cbn. unfold cardsFrom. cbn. rewrite app_nil_r, set_listView_same.
    by destruct e.
  - cbn [fmap list_fmap app renderFrom]. unfold bind, modify.
    rewrite IH by done. simpl_state. rewrite cardsFrom_cons.
    by rewrite <- app_assoc.
Qed.

Lemma renderBlogs_records_run s ps :
  blogs s = Rec <$> ps ->
  renderBlogs s
  = match blogList s with
    | Some _ => (Returned tt, set_listView (cardsFrom 0 ps) s)
    | None => (Returned tt, s)
    end.
Proof.
  intros Hb. unfold renderBlogs, bind, gets, modify.
  destruct (blogList s); [|done].
  simpl_state. rewrite Hb, renderFrom_records. done.
Qed.

Lemma renderBlogs_hole_run s c ps e rest :
  blogList s = Some c ->
  blogs s = (Rec <$> ps) ++ e :: rest ->
  isRec e = false ->
  renderBlogs s = (Threw, set_listView (cardsFrom 0 ps) s).
Proof.
  intros Hc Hb He. unfold renderBlogs, bind, gets, modify. rewrite Hc.
  simpl_state. rewrite Hb, renderFrom_hole by done. done.
Qed.

(** X4. With [#blogList] present and a store of records only, [renderBlogs]
    returns and replaces the view by one card per record, in store order,
    the card at position [k] carrying display index [k]; without the
    container it changes nothing. *)
Theorem renderBlogs_one_card_per_record s ps :
  blogs s = Rec <$> ps ->
  renderBlogs s
  = match blogList s with
    | Some _ => (Returned tt, set_listView (cardsFrom 0 ps) s)
    | None => (Returned tt, s)
    end
  /\ length (cardsFrom 0 ps) = length (blogs s)
  /\ (forall k p, ps !! k = Some p -> cardsFrom 0 ps !! k = Some (cardHtml p k)).
Proof.
  intros Hb. split; [|split].
  - by apply renderBlogs_records_run.
  - unfold cardsFrom. by rewrite Hb, length_imap, length_fmap.
  - intros k p Hk. unfold cardsFrom. rewrite list_lookup_imap, Hk. done.
Qed.

Lemma renderBlogs_one_card_per_record_witness :
  let s := page [Rec postA; Rec postB] None in
  renderBlogs s
  = match blogList s with
    | Some _ => (Returned tt, set_listView (cardsFrom 0 [postA; postB]) s)
    | None => (Returned tt, s)
    end
  /\ length (cardsFrom 0 [postA; postB]) = length (blogs s)
  /\ (forall k p, [postA; postB] !! k = Some p ->
                  cardsFrom 0 [postA; postB] !! k = Some (cardHtml p k)).
Proof.
  apply (renderBlogs_one_card_per_record
           (page [Rec postA; Rec postB] None) [postA; postB]).
  reflexivity.
Defined.

(** X5. With [#blogList] present and an entry that is [undefined] or [null]
    in the store, [renderBlogs] throws: the view holds the cards of the
    records before that entry and none after it. *)
Theorem renderBlogs_throws_at_hole s c ps e rest :
  blogList s = Some c ->
  blogs s = (Rec <$> ps) ++ e :: rest ->
  isRec e = false ->
  renderBlogs s = (Threw, set_listView (cardsFrom 0 ps) s).
Proof. apply renderBlogs_hole_run. Qed.

Lemma renderBlogs_throws_at_hole_witness :
  renderBlogs (page [Rec postA; Null; Rec postB] None)
  = (Threw, set_listView (cardsFrom 0 [postA])
              (page [Rec postA; Null; Rec postB] None)).
Proof.
  apply (renderBlogs_throws_at_hole
           (page [Rec postA; Null; Rec postB] None) [] [postA] Null [Rec postB]);
    reflexivity.
Defined.

End ListView.

(** ** Further properties: how the operations compose *)

Module Compose.

Import Js JsFacts BlogCrud StoreFacts SeedFacts ListView.
Local Open Scope js_scope.

Lemma stringify_id (ps : list Post) :
  stringifyEntry <$> (Rec <$> ps) = Rec <$> ps.
Proof. induction ps as [|p ps IH]; [done|]. cbn. by rewrite IH. Qed.

(** No handler adds or removes [#blogList]. *)
Lemma step_blogList s e : blogList (step s e) = blogList s.
Proof.
  destruct e as [f|i| |ms|h|ok]; unfold step, handler.
  - unfold exec. destruct (addBlog_run f s) as (o & v & ->).
    by destruct (addAccepted f s).
  - destruct (Js.lt i (Int 0) || Js.ge i (Int (len (blogs s)))) eqn:G.
    { unfold exec. by rewrite deleteBlog_stop. }
    unfold exec. destruct (deleteAccepted i s) eqn:Hw;
      [|by rewrite deleteBlog_reject].
    destruct (deleteBlog_pass i s G Hw) as (o & v & _ & ->).
    destruct o; [|reflexivity].
    unfold showUndo, setTimeout, clearTimeout, bind, gets, modify, ret,
      afterSplice, spliced.
    simpl_state. destruct (undoMessage s); [|reflexivity].
    simpl_state. by destruct (undoTimeout s).
  - destruct (recentlyDeleted s) as [d|] eqn:Hd.
    + destruct (restoreAccepted s) eqn:Hw;
        [|unfold exec; by rewrite (undoDelete_reject s d)].
      unfold exec, undoDelete, setDisplay, clearTimeout, bind, gets, modify.
      rewrite Hd. cbn beta iota. fold (restored d s). rewrite save_run.
      unfold restoreAccepted in Hw. rewrite Hd in Hw.
      change (accepts (restored d s)) with (accepts s). rewrite Hw.
      cbn beta iota. unfold restored. simpl_state.
      match goal with
      | |- context [renderBlogs ?s2] =>
          destruct (renderBlogs_run s2) as (o & v & ->)
      end.
      simpl_state. destruct (undoMessage s); simpl_state;
        (destruct o; [|done]); simpl_state; by destruct (undoTimeout s).
    + unfold exec. by rewrite undoDelete_idle.
  - done.
  - unfold exec, fire, expire, setDisplay, clearTimeout, bind, gets, modify, ret.
    destruct (filter _ (timers s)); [done|].
    simpl_state. by destruct (undoMessage s).
  - done.
Qed.

(** X6. Delete, add, restore. The record comes back at its original index in
    the store as it is now, so it stands one place earlier among its old
    neighbours; nothing is lost: the store is the original one with the
    new record, in another order. This holds of the store whatever
    storage takes; the slot is empty afterwards when the write of the
    restore is taken, and still holds the record when it is refused. *)
Theorem restore_after_add s z f :
  (0 <= z < len (blogs s))%Z ->
  let s1 := exec (deleteBlog (Int z)) s in
  let s2 := exec (addBlog f) s1 in
  let s3 := exec undoDelete s2 in
  exists r p,
    blogs s !! Z.to_nat z = Some r
    /\ blogs s2 = Rec p :: delete (Z.to_nat z) (blogs s)
    /\ blogs s3 = take (Z.to_nat z) (blogs s2) ++ r :: drop (Z.to_nat z) (blogs s2)
    /\ blogs s3 !! Z.to_nat z = Some r
    /\ blogs s3 ≡ₚ Rec p :: blogs s
    /\ recentlyDeleted s3
       = (if restoreAccepted s2 then None else Some (mkDeleted r (Int z))).
Proof.
  intros Hz s1 s2 s3. destruct (lookup_valid _ _ Hz) as [r Hr].
  destruct (deleteBlog_valid s z r Hz Hr) as (Hb1 & Hd1).
  fold s1 in Hb1, Hd1.
  destruct (addBlog_core f s1) as (Hb2 & Hd2). fold s2 in Hb2, Hd2.
  rewrite Hd1 in Hd2. rewrite Hb1 in Hb2.
  pose proof (undoDelete_core s2 _ Hd2) as Hb3. fold s3 in Hb3.
  cbn [index blog] in Hb3.
  assert (Hlen : len (blogs s2) = len (blogs s)).
  { rewrite Hb2. unfold len in *. cbn [length].
    rewrite length_delete by by eexists. lia. }
  rewrite splice_insert_at, spliceStart_min in Hb3 by lia. cbv zeta in Hb3.
  rewrite Hlen in Hb3. replace (Z.min z (len (blogs s))) with z in Hb3 by lia.
  eexists r, _. split; [done|]. split; [exact Hb2|]. split; [exact Hb3|].
  split; [|split].
  - rewrite Hb3. apply list_lookup_middle. rewrite length_take_le; [done|].
    unfold len in *. lia.
  - rewrite Hb3, <- Permutation_middle, take_drop, Hb2.
    rewrite Permutation_swap. f_equiv. symmetry. by apply delete_Permutation.
  - apply (undoDelete_slot s2 _ Hd2).
Qed.

Lemma restore_after_add_witness :
  let s := page [Rec postA; Rec postB; Rec postC] (Some hiddenBox) in
  let s3 := exec undoDelete (exec (addBlog untitled) (exec (deleteBlog (Int 1)) s)) in
  (exists p, blogs s3 = [Rec p; Rec postB; Rec postA; Rec postC])
  /\ blogs s3 !! 1 = Some (Rec postB)
  /\ recentlyDeleted s3 = None.
Proof.
  destruct (restore_after_add
              (page [Rec postA; Rec postB; Rec postC] (Some hiddenBox)) 1 untitled)
    as (r & p & Hr & Hb2 & Hb3 & Hk & _ & Hn).
  { unfold len. cbn. lia. }
  injection Hr as <-. split; [|split; [exact Hk|exact Hn]].
  exists p. rewrite Hb3, Hb2. reflexivity.
Defined.

(** X7. Deleting the only record empties the store. When storage takes the
    write, the empty list is persisted, and the next page load over it,
    whatever storage takes then, seeds the store from the static cards
    again; when storage refuses the write, the persisted item stays as it
    was. *)
Theorem deleting_last_record_reseeds s r ok t c cards box single query :
  blogs s = [r] ->
  let s1 := exec (deleteBlog (Int 0)) s in
  blogs s1 = []
  /\ storage s1 = (if accepts s [] then Array [] else storage s)
  /\ (accepts s [] = true ->
      storage s1 = Array []
      /\ blogs (exec (onLoad query)
                  (fresh (storage s1) ok t (Some (c :: cards)) box single))
         = Rec <$> imap (readCard t) (c :: cards)).
Proof.
  intros Hb s1.
  assert (Hz : (0 <= 0 < len (blogs s))%Z) by (rewrite Hb; unfold len; cbn; lia).
  assert (Hr : blogs s !! Z.to_nat 0 = Some r) by by rewrite Hb.
  destruct (deleteBlog_valid s 0 r Hz Hr) as (Hb1 & _).
  pose proof (deleteBlog_valid_storage s 0 Hz) as Hs1.
  fold s1 in Hb1, Hs1. rewrite Hb in Hb1, Hs1.
  change (delete (Z.to_nat 0) [r]) with (@nil Entry) in Hb1, Hs1.
  change (stringifyEntry <$> []) with (@nil Entry) in Hs1.
  split; [done|]. split; [done|]. intros Hw. rewrite Hw in Hs1.
  split; [done|]. rewrite Hs1.
  pose proof (onLoad_mem query
                (fresh (Array []) ok t (Some (c :: cards)) box single)) as Hm.
  unfold exec in Hm. rewrite initializeFromDOM_cases in Hm. cbn [storage fresh] in Hm.
  apply (f_equal (fun m => fst (fst m))) in Hm. cbn [mem fst] in Hm.
  unfold exec. rewrite Hm.
  pose proof (seedFromDOM_mem
                (fresh (Array []) ok t (Some (c :: cards)) box single)) as Hseed.
  cbn [blogList fresh] in Hseed. cbv zeta in Hseed. unfold exec in Hseed.
  by apply mem_inv in Hseed as (-> & _).
Qed.

Lemma deleting_last_record_reseeds_witness :
  let s1 := exec (deleteBlog (Int 0)) (page [Rec postA] None) in
  blogs s1 = []
  /\ storage s1 = Array []
  /\ blogs (exec (onLoad None)
              (fresh (storage s1) (fun _ => true) 5 (Some [cardHello]) None None))
     = Rec <$> imap (readCard 5) [cardHello].
Proof.
  destruct (deleting_last_record_reseeds (page [Rec postA] None) (Rec postA)
              (fun _ => true) 5 cardHello [] None None None)
    as (Hb & _ & H); [reflexivity|].
  destruct H as (Hs & Hl); [reflexivity|].
  split; [exact Hb|]. split; [exact Hs|exact Hl].
Defined.

End Compose.

(** ** Further properties: a [NaN] delete followed by a restore *)

Module NaNPath.

Import Js JsFacts BlogCrud StoreFacts SeedFacts ListView Compose.
Local Open Scope js_scope.

Lemma splice_insert_front {A} (l : list A) (a : num) (x : A) :
  splice l (Js.min NaN a) 0 [x] = x :: l.
Proof.
  rewrite splice_insert_at. cbn [Js.min]. unfold spliceStart. cbn [toInteger].
  change (0 <? 0)%Z with false. cbn match.
  pose proof (len_nonneg l). by replace (Z.min 0 (len l)) with 0%Z by lia.
Qed.

(** X8. On a page with [#blogList], [deleteBlog NaN] followed by
    [undoDelete] does not bring the removed first record back: the store
    gets [undefined] in its place. When storage takes the write of the
    restore, [null] is persisted for that entry, [undoDelete] throws in
    [renderBlogs] with the view left empty, and every later page load
    over that item, whatever storage takes then, throws in [renderBlogs]
    too and shows no card. When storage refuses that write, [undoDelete]
    throws at [save] and the persisted item is the one the delete
    left. *)
Theorem NaN_delete_then_undo_breaks_rendering s c b ps :
  blogList s = Some c ->
  blogs s = b :: (Rec <$> ps) ->
  let s1 := exec (deleteBlog NaN) s in
  let s2 := exec undoDelete s1 in
  blogs s2 = Undefined :: (Rec <$> ps)
  /\ fst (undoDelete s1) = Threw
  /\ (accepts s (Null :: (Rec <$> ps)) = false ->
      recentlyDeleted s2 = recentlyDeleted s1 /\ storage s2 = storage s1)
  /\ (accepts s (Null :: (Rec <$> ps)) = true ->
      recentlyDeleted s2 = None
      /\ storage s2 = Array (Null :: (Rec <$> ps))
      /\ listView s2 = []
      /\ forall ok t cards box single query,
          let r := onLoad query (fresh (storage s2) ok t (Some cards) box single) in
          fst r = Threw
          /\ blogs (snd r) = Null :: (Rec <$> ps)
          /\ listView (snd r) = []).
Proof.
  intros Hc Hb s1 s2.
  assert (G : Js.lt NaN (Int 0) || Js.ge NaN (Int (len (blogs s))) = false)
    by reflexivity.
  destruct (deleteBlog_core NaN s G) as (Hb1 & Hd1).
  fold s1 in Hb1, Hd1.
  rewrite splice_delete_NaN, Hb in Hb1. change (drop 1 (b :: ?l)) with l in Hb1.
  cbn [Js.get default] in Hd1.
  assert (Hc1 : blogList s1 = Some c).
  { rewrite <- Hc. apply (step_blogList s (Delete NaN)). }
  assert (Ha1 : accepts s1 = accepts s) by apply accepts_deleteBlog.
  assert (Hstr : stringifyEntry <$> (Rec <$> ps) = Rec <$> ps).
  { apply stringify_id. }
  assert (Hrest : blogs (restored (mkDeleted Undefined NaN) s1)
                  = Undefined :: (Rec <$> ps)).
  { unfold restored. simpl_state. cbn [index blog].
    by rewrite splice_insert_front, Hb1. }
  assert (Hacc : restoreAccepted s1 = accepts s (Null :: (Rec <$> ps))).
  { unfold restoreAccepted. rewrite Hd1, Hrest, Ha1.
    cbn [fmap list_fmap stringifyEntry]. by rewrite Hstr. }
  assert (Hb2 : blogs s2 = Undefined :: (Rec <$> ps)).
  { unfold s2. rewrite (undoDelete_core s1 _ Hd1). cbn [index blog].
    by rewrite splice_insert_front, Hb1. }
  split; [exact Hb2|].
  destruct (accepts s (Null :: (Rec <$> ps))) eqn:Hw.
  - assert (Hrun : undoDelete s1
                   = (Threw,
                      set_listView []
                        (exec (setDisplay "none")
                           (set_recentlyDeleted None
                              (set_storage (Array (Null :: (Rec <$> ps)))
                                 (set_blogs (Undefined :: (Rec <$> ps)) s1)))))).
    { unfold exec, undoDelete, setDisplay, bind, gets, modify.
      rewrite Hd1. cbn beta iota.
      fold (restored (mkDeleted Undefined NaN) s1). rewrite save_run.
      change (accepts (restored (mkDeleted Undefined NaN) s1)) with (accepts s1).
      rewrite Hrest, Ha1. cbn [fmap list_fmap stringifyEntry]. rewrite Hstr, Hw.
      cbn beta iota. unfold restored. cbn [index blog]. simpl_state.
      rewrite splice_insert_front, Hb1.
      match goal with
      | |- context [renderBlogs ?X] =>
          rewrite (renderBlogs_hole_run X c [] Undefined (Rec <$> ps))
      end.
      - reflexivity.
      - by destruct (undoMessage s1).
      - by destruct (undoMessage s1).
      - reflexivity. }
    assert (Hs2 : s2 = snd (undoDelete s1)) by done.
    rewrite Hrun in Hs2. cbn [snd] in Hs2.
    assert (Hst2 : storage s2 = Array (Null :: (Rec <$> ps))).
    { rewrite Hs2. unfold exec, setDisplay, modify. simpl_state.
      by destruct (undoMessage s1). }
    split; [by rewrite Hrun|]. split; [discriminate|]. intros _.
    split; [rewrite Hs2; unfold exec, setDisplay, modify; simpl_state;
            by destruct (undoMessage s1)|].
    split; [exact Hst2|]. split; [by rewrite Hs2|].
    intros ok t cards box single query. cbv zeta. rewrite Hst2.
    unfold onLoad, bind. rewrite initializeFromDOM_cases. cbn [storage fresh].
    match goal with
    | |- context [renderBlogs ?X] =>
        rewrite (renderBlogs_hole_run X cards [] Null (Rec <$> ps))
    end; done.
  - assert (Hrun : undoDelete s1
                   = (Threw, restored (mkDeleted Undefined NaN) s1))
      by by apply undoDelete_reject.
    split; [by rewrite Hrun|]. split; [|discriminate]. intros _.
    unfold s2, exec. by rewrite Hrun.
Qed.

Lemma NaN_delete_then_undo_breaks_rendering_witness :
  let s := page [Rec postA; Rec postB] (Some hiddenBox) in
  let s2 := exec undoDelete (exec (deleteBlog NaN) s) in
  blogs s2 = [Undefined; Rec postB]
  /\ storage s2 = Array [Null; Rec postB]
  /\ fst (onLoad None
            (fresh (storage s2) (fun _ => true) 7 (Some [cardHello]) None None))
     = Threw.
Proof.
  destruct (NaN_delete_then_undo_breaks_rendering
              (page [Rec postA; Rec postB] (Some hiddenBox)) [] (Rec postA) [postB])
    as (Hb & _ & _ & H); [reflexivity..|].
  destruct H as (_ & Hs & _ & Hl); [reflexivity|].
  split; [exact Hb|]. split; [exact Hs|].
  apply (Hl (fun _ => true) 7%Z [cardHello] None None None).
Defined.

End NaNPath.

(** ** Further properties: the expiry timer on a page with [#undoMessage] *)

Module Expiry.

Import Js JsFacts BlogCrud StoreFacts SeedFacts ListView.
Local Open Scope js_scope.

Lemma clear_own h d : filter (fun tm => handle tm <> h) [mkTimer h d] = [].
Proof. rewrite filter_cons_False; [done|]. cbn. by intros H. Qed.

Lemma oneTimer_cases s :
  oneTimer s ->
  match undoTimeout s with
  | Some h => filter (fun tm => handle tm <> h) (timers s) = []
  | None => timers s = []
  end.
Proof.
  unfold oneTimer. destruct (undoTimeout s) as [h|]; [|done].
  intros [d ->]. apply clear_own.
Qed.

(** [showUndo] with the element present: the earlier expiry, if any, is
    cancelled and one new expiry is scheduled 6000 ms ahead. *)
Lemma showUndo_present d s box :
  undoMessage s = Some box ->
  oneTimer s ->
  exists html,
    showUndo d s
    = (Returned tt,
       set_undoTimeout (Some (nextHandle s))
         (set_nextHandle (S (nextHandle s))
            (set_timers [mkTimer (nextHandle s) (now s + 6000)]
               (set_undoMessage (Some (mkUndoBox html "block")) s)))).
Proof.
  intros Hbox H1. apply oneTimer_cases in H1. eexists.
  unfold showUndo, setTimeout, clearTimeout, bind, gets, modify, ret.
  rewrite Hbox. simpl_state.
  destruct (undoTimeout s) as [h|]; simpl_state; by rewrite H1.
Qed.

Lemma step_oneTimer s e : oneTimer s -> oneTimer (step s e).
Proof.
  intros H1. destruct e as [f|i| |ms|h|ok]; unfold step, handler.
  - unfold exec. destruct (addBlog_run f s) as (o & v & ->).
    destruct (addAccepted f s); exact H1.
  - destruct (Js.lt i (Int 0) || Js.ge i (Int (len (blogs s)))) eqn:G.
    { unfold exec. by rewrite deleteBlog_stop. }
    unfold exec. destruct (deleteAccepted i s) eqn:Hw;
      [|rewrite deleteBlog_reject by done; exact H1].
    destruct (deleteBlog_pass i s G Hw) as (o & v & _ & ->).
    destruct o; [|exact H1].
    destruct (undoMessage s) as [box|] eqn:Hbox.
    + destruct (showUndo_present (recentlyDeleted (afterSplice i s))
                  (set_listView v (afterSplice i s)) box Hbox H1) as [html ->].
      unfold oneTimer. simpl_state. by eexists.
    + by rewrite showUndo_absent.
  - destruct (recentlyDeleted s) as [d|] eqn:Hd.
    + pose proof (oneTimer_cases s H1) as Hc.
      destruct (restoreAccepted s) eqn:Hw;
        [|unfold exec; rewrite (undoDelete_reject s d) by done; exact H1].
      unfold exec, undoDelete, setDisplay, clearTimeout, bind, gets, modify, ret.
      rewrite Hd. cbn beta iota. fold (restored d s). rewrite save_run.
      unfold restoreAccepted in Hw. rewrite Hd in Hw.
      change (accepts (restored d s)) with (accepts s). rewrite Hw.
      cbn beta iota. unfold restored. simpl_state.
      unfold oneTimer in *.
      destruct (undoMessage s);
        match goal with
        | |- context [renderBlogs ?s2] =>
            destruct (renderBlogs_run s2) as (o & v & ->)
        end;
        (destruct o; [|exact H1]); simpl_state;
        destruct (undoTimeout s) eqn:E; cbn [snd]; simpl_state;
        rewrite ?E; exact Hc.
    + unfold exec. by rewrite undoDelete_idle.
  - exact H1.
  - unfold exec, fire, expire, setDisplay, clearTimeout, bind, gets, modify, ret.
    destruct (filter (fun tm => handle tm = h /\ (due tm <= now s)%Z) (timers s))
      as [|tm q] eqn:F; [exact H1|].
    unfold oneTimer in *. simpl_state.
    assert (Hc : filter (fun tm => handle tm <> h) (timers s) = []).
    { destruct (undoTimeout s) as [h'|].
      - destruct H1 as [d Ht]. rewrite Ht in F |- *.
        destruct (decide (h' = h)) as [->|Hne]; [apply clear_own|].
        rewrite filter_cons_False in F; [done|]. cbn. by intros [? _].
      - rewrite H1 in F. done. }
    destruct (undoMessage s); simpl_state; exact Hc.
  - exact H1.
Qed.

Lemma run_oneTimer evs : forall s, oneTimer s -> oneTimer (run evs s).
Proof.
  induction evs as [|e evs IH]; intros s H1; [done|].
  cbn. apply IH. by apply step_oneTimer.
Qed.

Lemma onLoad_oneTimer query s : oneTimer s -> oneTimer (exec (onLoad query) s).
Proof.
  intros H1. unfold exec, onLoad, bind.
  assert (H2 : oneTimer (snd (initializeFromDOM s))).
  { rewrite initializeFromDOM_cases.
    assert (Hs : oneTimer (snd (seedFromDOM s))).
    { unfold seedFromDOM, bind, gets, modify.
      destruct (blogList s) as [cards|]; [|exact H1].
      cbn beta iota.
      destruct (len cards =? 0)%Z; cbn beta iota; rewrite save_run;
        match goal with
        | |- context [if ?c then _ else _] => destruct c
        end; exact H1. }
    destruct (storage s) as [| | | |[|e l]]; try exact Hs. exact H1. }
  destruct (initializeFromDOM s) as [o s1]. cbn [snd] in H2.
  destruct o; [|done].
  destruct (renderBlogs_run s1) as (o & v & ->). destruct o; [|done].
  destruct (renderSingleIfNeeded_run query (set_listView v s1)) as (o & w & ->).
  done.
Qed.

(** X9. From a page load on, whatever the events and whatever storage
    takes, at most one expiry is scheduled at any time, and it is the one
    [undoTimeout] names: a second delete replaces the timer of the first,
    and a timer that has run or has been cancelled is gone. *)
Theorem at_most_one_expiry st ok t cards box single query evs :
  let s := run evs (exec (onLoad query) (fresh st ok t cards box single)) in
  oneTimer s /\ length (timers s) <= 1.
Proof.
  intros s.
  assert (H1 : oneTimer s).
  { apply run_oneTimer, onLoad_oneTimer. reflexivity. }
  split; [exact H1|]. unfold oneTimer in H1.
  destruct (undoTimeout s); [destruct H1 as [d ->]|rewrite H1]; cbn; lia.
Qed.

Lemma renderBlogs_records_returns s ps :
  blogs s = Rec <$> ps -> fst (renderBlogs s) = Returned tt.
Proof.
  intros Hb. rewrite (renderBlogs_records_run s ps Hb). by destruct (blogList s).
Qed.

(** X10. The undo window. On a page with [#undoMessage] and a store of records,
    a delete at a valid index whose write storage takes shows the box and
    schedules the one expiry 6000 ms ahead. If the timer is offered to
    run before that much time has passed, nothing happens to the slot;
    once 6000 ms or more have passed and it runs, the slot is empty, the
    box is hidden, the record stays deleted and [undoDelete] no longer
    changes the store. When storage refuses the write, [deleteBlog]
    throws at [save]: the box, the timers and the view stay as they
    were, while the record is out of the store and in the slot. *)
Theorem undo_window s box ps z :
  undoMessage s = Some box ->
  oneTimer s ->
  blogs s = Rec <$> ps ->
  (0 <= z < len (blogs s))%Z ->
  let s1 := exec (deleteBlog (Int z)) s in
  let h := nextHandle s in
  (deleteAccepted (Int z) s = false ->
   fst (deleteBlog (Int z) s) = Threw
   /\ undoMessage s1 = undoMessage s
   /\ timers s1 = timers s
   /\ undoTimeout s1 = undoTimeout s
   /\ listView s1 = listView s
   /\ blogs s1 = delete (Z.to_nat z) (blogs s)
   /\ recentlyDeleted s1 <> None)
  /\ (deleteAccepted (Int z) s = true ->
      undoTimeout s1 = Some h
      /\ timers s1 = [mkTimer h (now s + 6000)]
      /\ display <$> undoMessage s1 = Some "block"
      /\ (forall ms, (Z.of_N ms < 6000)%Z ->
            recentlyDeleted (run [Elapse ms; Fire h] s1) = recentlyDeleted s1)
      /\ (forall ms, (6000 <= Z.of_N ms)%Z ->
            let s2 := run [Elapse ms; Fire h] s1 in
            recentlyDeleted s2 = None
            /\ timers s2 = []
            /\ undoTimeout s2 = None
            /\ display <$> undoMessage s2 = Some "none"
            /\ blogs s2 = blogs s1
            /\ blogs (exec undoDelete s2) = blogs s1)).
Proof.
  intros Hbox H1 Hb Hz s1 h.
  assert (G := guard_valid (blogs s) z Hz).
  split.
  { intros Hw. pose proof (deleteBlog_reject (Int z) s G Hw) as Hrun.
    destruct (lookup_valid _ _ Hz) as [r Hr].
    destruct (deleteBlog_valid s z r Hz Hr) as (Hb1 & Hd1).
    fold s1 in Hb1, Hd1.
    split; [by rewrite Hrun|].
    assert (Hs1 : s1 = spliced (Int z) s) by (unfold s1, exec; by rewrite Hrun).
    split; [by rewrite Hs1|]. split; [by rewrite Hs1|].
    split; [by rewrite Hs1|]. split; [by rewrite Hs1|].
    split; [exact Hb1|]. by rewrite Hd1. }
  intros Hw.
  destruct (deleteBlog_pass (Int z) s G Hw) as (o & v & Hr & Hrun).
  assert (Ho : o = Returned tt).
  { pose proof (renderBlogs_records_returns (afterSplice (Int z) s)
                  (delete (Z.to_nat z) ps)) as Hret.
    rewrite Hr in Hret. apply Hret.
    unfold afterSplice, spliced. simpl_state.
    rewrite splice_delete_valid by done. by rewrite Hb, list_fmap_delete. }
  subst o.
  destruct (showUndo_present (recentlyDeleted (afterSplice (Int z) s))
              (set_listView v (afterSplice (Int z) s)) box Hbox H1) as [html Hshow].
  rewrite Hshow in Hrun.
  assert (Hs1 : s1 = snd (deleteBlog (Int z) s)) by done.
  rewrite Hrun in Hs1. cbn [snd] in Hs1.
  change (nextHandle (afterSplice (Int z) s)) with h in Hs1.
  change (now (afterSplice (Int z) s)) with (now s) in Hs1.
  split; [by rewrite Hs1|]. split; [by rewrite Hs1|]. split; [by rewrite Hs1|].
  split.
  - intros ms Hms. cbn [run fold_left]. unfold step at 1, handler, exec.
    unfold fire, bind, gets. unfold step, handler, exec, modify. cbn [snd].
    rewrite Hs1. simpl_state. fold h.
    rewrite filter_cons_False; [reflexivity|].
    cbn [handle due]. unfold not. intros [_ Hd]. lia.
  - intros ms Hms s2.
    assert (Hs2 : s2 = exec expire
                         (set_timers []
                            (set_now (now s + Z.of_N ms) s1))).
    { unfold s2. cbn [run fold_left]. unfold step at 1, handler, exec.
      unfold fire, clearTimeout, bind, gets. unfold step, handler, exec, modify.
      cbn [snd]. rewrite Hs1. simpl_state. fold h.
      rewrite filter_cons_True; [|cbn [handle due]; split; [done|lia]].
      cbn beta iota. simpl_state. rewrite clear_own. reflexivity. }
    assert (Hd2 : recentlyDeleted s2 = None).
    { rewrite Hs2, Hs1. unfold exec, expire, setDisplay, bind, modify. done. }
    split; [exact Hd2|].
    split; [rewrite Hs2, Hs1; unfold exec, expire, setDisplay, bind, modify; done|].
    split; [rewrite Hs2, Hs1; unfold exec, expire, setDisplay, bind, modify; done|].
    split; [rewrite Hs2, Hs1; unfold exec, expire, setDisplay, bind, modify; done|].
    assert (Hb2 : blogs s2 = blogs s1).
    { rewrite Hs2. unfold exec, expire, setDisplay, bind, modify.
      simpl_state. by destruct (undoMessage s1). }
    split; [exact Hb2|].
    unfold exec. by rewrite undoDelete_idle.
Qed.

Lemma undo_window_witness :
  let s := page [Rec postA; Rec postB] (Some hiddenBox) in
  let s1 := exec (deleteBlog (Int 0)) s in
  timers s1 = [mkTimer 1 1700000006000]
  /\ recentlyDeleted (run [Elapse 5999%N; Fire 1] s1) = recentlyDeleted s1
  /\ recentlyDeleted (run [Elapse 6000%N; Fire 1] s1) = None.
Proof.
  destruct (undo_window (page [Rec postA; Rec postB] (Some hiddenBox))
              hiddenBox [postA; postB] 0)
    as (_ & H); [reflexivity..| |].
  { unfold len. cbn. lia. }
  destruct H as (_ & Ht & _ & Hearly & Hlate); [reflexivity|].
  split; [exact Ht|]. split.
  - apply (Hearly 5999%N). lia.
  - apply (Hlate 6000%N). lia.
Defined.

End Expiry.

(** ** Further properties: truncating and escaping *)

Module Text.

Import Js JsFacts BlogCrud EscapeFacts.

Lemma length_append s1 s2 :
  String.length (s1 +:+ s2) = String.length s1 + String.length s2.
Proof.
  induction s1 as [|a s1 IH]; [reflexivity|].
  rewrite append_cons. cbn [String.length]. by rewrite IH.
Qed.

Lemma length_slice0 n : forall s,
  String.length (slice0 n s) = Nat.min n (String.length s).
Proof.
  unfold slice0. induction n as [|n IH]; intros s.
  - by destruct s.
  - destruct s as [|a s]; [reflexivity|]. cbn. by rewrite IH.
Qed.

Lemma slice0_append s1 s2 : slice0 (String.length s1) (s1 +:+ s2) = s1.
Proof.
  unfold slice0. induction s1 as [|a s1 IH]; [by destruct s2|].
  rewrite append_cons. cbn. by rewrite IH.
Qed.

Lemma prefix_append_self s1 s2 : String.prefix s1 (s1 +:+ s2) = true.
Proof.
  induction s1 as [|a s1 IH]; [by destruct s2|].
  rewrite append_cons. cbn. by destruct (ascii_dec a a).
Qed.

(** X11. [truncate] keeps a text of at most [n] characters as it is and cuts a
    longer one to its first [n] characters followed by three dots, so the
    result has at most [n + 3] characters and starts with the first [n]
    characters of the text; truncating twice is truncating once. *)
Theorem truncate_bounds s n :
  String.length (truncate s n)
  = (if (n <? String.length s)%nat then n + 3 else String.length s)
  /\ String.length (truncate s n) <= n + 3
  /\ String.prefix (slice0 n s) (truncate s n) = true
  /\ truncate (truncate s n) n = truncate s n.
Proof.
  unfold truncate at 1 2 3 5. destruct (n <? String.length s)%nat eqn:E.
  - apply Nat.ltb_lt in E.
    assert (Hl : String.length (slice0 n s) = n).
    { rewrite length_slice0. lia. }
    assert (Hl' : String.length (slice0 n s +:+ "...") = n + 3).
    { rewrite length_append, Hl. reflexivity. }
    split; [done|]. split; [lia|]. split; [apply prefix_append_self|].
    unfold truncate. rewrite Hl'.
    destruct (n <? n + 3)%nat eqn:E'; [|apply Nat.ltb_ge in E'; lia].
    pose proof (slice0_append (slice0 n s) "...") as Hsl. rewrite Hl in Hsl.
    rewrite Hsl. by rewrite (proj2 (Nat.ltb_lt _ _) E).
  - apply Nat.ltb_ge in E. split; [done|]. split; [lia|]. split.
    + unfold slice0. apply prefix_correct.
      assert (Hs : forall m t, String.length t <= m -> substring 0 m t = t).
      { induction m as [|m IH]; intros [|a t] Ht; cbn in *; try done; try lia.
        rewrite IH; [done|lia]. }
      rewrite (Hs n s E). clear Hs.
      induction s as [|a s IH]; [done|]. cbn in *. rewrite IH; [done|lia].
    + unfold truncate. destruct (n <? String.length s)%nat eqn:E'; [|done].
      apply Nat.ltb_lt in E'. lia.
Qed.

Lemma append_assoc s1 s2 s3 : (s1 +:+ s2) +:+ s3 = s1 +:+ (s2 +:+ s3).
Proof.
  induction s1 as [|a s1 IH]; [reflexivity|].
  rewrite !append_cons. by rewrite IH.
Qed.

Lemma replaceAll_app c r s1 s2 :
  replaceAll c r (s1 +:+ s2) = replaceAll c r s1 +:+ replaceAll c r s2.
Proof.
  induction s1 as [|a s1 IH]; [reflexivity|].
  rewrite append_cons. cbn [replaceAll]. rewrite IH.
  destruct (Ascii.eqb a c); [|reflexivity].
  by rewrite append_assoc.
Qed.

(** The four passes, on a text that may be empty. *)
Lemma passes_escapeChars s :
  replaceAll ">" "&gt;"
    (replaceAll "<" "&lt;"
       (replaceAll dquote "&quot;" (replaceAll "&" "&amp;" s)))
  = escapeChars s.
Proof.
  induction s as [|a s IH]; [reflexivity|].
  cbn [escapeChars replaceAll]. unfold escapeChar.
  destruct (Ascii.eqb a "&") eqn:E1.
  { rewrite !replaceAll_app, IH. reflexivity. }
  cbn [replaceAll]. destruct (Ascii.eqb a dquote) eqn:E2.
  { rewrite !replaceAll_app, IH. reflexivity. }
  cbn [replaceAll]. destruct (Ascii.eqb a "<") eqn:E3.
  { rewrite !replaceAll_app, IH. reflexivity. }
  cbn [replaceAll]. destruct (Ascii.eqb a ">") eqn:E4.
  { rewrite IH. reflexivity. }
  rewrite IH. reflexivity.
Qed.

Lemma escapeHtml_is_one_pass_aux str : escapeHtml str = escapeChars str.
Proof.
  unfold escapeHtml. destruct str as [|a s]; [reflexivity|].
  cbn [truthy negb]. apply passes_escapeChars.
Qed.

(** X12. The four successive replacements of [escapeHtml] amount to one pass
    that writes, for each character of the text, its entity or the
    character itself: an entity written by an earlier replacement is never
    escaped again by a later one. *)
Theorem escapeHtml_is_one_pass str : escapeHtml str = escapeChars str.
Proof. apply escapeHtml_is_one_pass_aux. Qed.

(** X13. A text with none of the four characters is left as it is. *)
Theorem escapeHtml_plain_text str :
  Forall (fun c => count c str = 0) specials -> escapeHtml str = str.
Proof.
  rewrite escapeHtml_is_one_pass_aux. unfold specials.
  intros H. apply Forall_cons in H as [Ha H]. apply Forall_cons in H as [Hq H].
  apply Forall_cons in H as [Hl H]. apply Forall_cons in H as [Hg _].
  induction str as [|a s IH]; [reflexivity|].
  cbn [count] in *. cbn [escapeChars]. unfold escapeChar.
  destruct (Ascii.eqb a "&"); [discriminate|].
  destruct (Ascii.eqb a dquote); [discriminate|].
  destruct (Ascii.eqb a "<"); [discriminate|].
  destruct (Ascii.eqb a ">"); [discriminate|].
  rewrite append_cons, append_nil. f_equal. apply IH; lia.
Qed.

Lemma escapeHtml_plain_text_witness :
  escapeHtml "Hello, world" = "Hello, world".
Proof.
  apply (escapeHtml_plain_text "Hello, world").
  unfold specials. repeat constructor.
Defined.

Lemma escapeChars_inj s : forall s', escapeChars s = escapeChars s' -> s = s'.
Proof.
  induction s as [|a s IH]; intros [|a' s'] H.
  - reflexivity.
  - exfalso. cbn [escapeChars] in H. unfold escapeChar in H.
    destruct (Ascii.eqb a' "&"); [discriminate|].
    destruct (Ascii.eqb a' dquote); [discriminate|].
    destruct (Ascii.eqb a' "<"); [discriminate|].
    destruct (Ascii.eqb a' ">"); discriminate.
  - exfalso. cbn [escapeChars] in H. unfold escapeChar in H.
    destruct (Ascii.eqb a "&"); [discriminate|].
    destruct (Ascii.eqb a dquote); [discriminate|].
    destruct (Ascii.eqb a "<"); [discriminate|].
    destruct (Ascii.eqb a ">"); discriminate.
  - cbn [escapeChars] in H. unfold escapeChar in H.
    destruct (Ascii.eqb_spec a "&") as [->|N1];
      [|destruct (Ascii.eqb_spec a dquote) as [->|N2];
        [|destruct (Ascii.eqb_spec a "<") as [->|N3];
          [|destruct (Ascii.eqb_spec a ">") as [->|N4]]]];
    (destruct (Ascii.eqb_spec a' "&") as [->|M1];
      [|destruct (Ascii.eqb_spec a' dquote) as [->|M2];
        [|destruct (Ascii.eqb_spec a' "<") as [->|M3];
          [|destruct (Ascii.eqb_spec a' ">") as [->|M4]]]]);
    cbv [append] in H; try discriminate;
    try (injection H as H; f_equal; by apply IH);
    try (injection H as ? H; congruence).
    injection H as -> H. f_equal. by apply IH.
Qed.

(** X14. Escaping loses nothing: two different texts are never escaped to the
    same markup. *)
Theorem escapeHtml_injective s s' : escapeHtml s = escapeHtml s' -> s = s'.
Proof. rewrite !escapeHtml_is_one_pass_aux. apply escapeChars_inj. Qed.

Lemma escapeHtml_injective_witness :
  "a<b" = "a<b".
Proof.
  apply (escapeHtml_injective "a<b" "a<b"). reflexivity.
Defined.

End Text.

(** ** Further properties: the seed extractor and the single-post view *)

Module Pages.

Import Js JsFacts BlogCrud StoreFacts SeedFacts.
Local Open Scope js_scope.

(** X15. The loop of lines 53-60 takes the link of the first anchor that
    passes the test of line 56, whatever follows it, and the empty string
    when that anchor has no [href] or when no anchor passes. *)
Theorem findDetailUrl_first_match pre :
  Forall (fun x => isReadLink x = false) pre ->
  findDetailUrl pre = EmptyString
  /\ forall a post,
      isReadLink a = true ->
      findDetailUrl (pre ++ a :: post) = default EmptyString (href a).
Proof.
  induction 1 as [|x pre Hx _ [IH1 IH2]].
  - split; [reflexivity|]. intros a post Ha. cbn [app findDetailUrl].
    unfold isReadLink in Ha. rewrite Ha. by destruct (href a).
  - unfold isReadLink in Hx. split.
    + cbn [findDetailUrl]. by rewrite Hx.
    + intros a post Ha. cbn [app findDetailUrl]. rewrite Hx. by apply IH2.
Qed.

Lemma findDetailUrl_first_match_witness :
  findDetailUrl [mkAnchor "Home" false (Some "index.html");
                 mkAnchor "READ more" false (Some "one.html");
                 mkAnchor "Read" true (Some "two.html")]
  = "one.html".
Proof.
  destruct (findDetailUrl_first_match [mkAnchor "Home" false (Some "index.html")])
    as [_ H].
  - repeat constructor.
  - apply (H (mkAnchor "READ more" false (Some "one.html"))
             [mkAnchor "Read" true (Some "two.html")]).
    reflexivity.
Defined.

(** X16. When nothing usable is persisted and the container has cards,
    [initializeFromDOM] makes one record per card, in card order, the
    record of the card at position [k] carrying id [Date.now() + k]. It
    persists exactly that list when storage takes it; when storage
    refuses it, the persisted item stays as it was. *)
Theorem seeding_one_record_per_card s c cards :
  (forall e l, storage s <> Array (e :: l)) ->
  blogList s = Some (c :: cards) ->
  let s' := exec initializeFromDOM s in
  length (blogs s') = length (c :: cards)
  /\ (forall k card,
        (c :: cards) !! k = Some card ->
        blogs s' !! k = Some (Rec (readCard (now s) k card))
        /\ id (readCard (now s) k card) = (now s + Z.of_nat k)%Z)
  /\ storage s' = (if accepts s (blogs s') then Array (blogs s') else storage s).
Proof.
  intros Hst Hc s'.
  assert (Hm : mem s' = mem (exec seedFromDOM s)).
  { unfold s', exec. rewrite initializeFromDOM_cases.
    destruct (storage s) as [| | | |[|e l]] eqn:E; try reflexivity.
    by destruct (Hst e l). }
  rewrite seedFromDOM_mem, Hc in Hm. cbv zeta in Hm.
  apply mem_inv in Hm as (Hb & _ & Hs).
  split; [|split].
  - by rewrite Hb, length_fmap, length_imap.
  - intros k card Hk. split; [|reflexivity].
    by rewrite Hb, list_lookup_fmap, list_lookup_imap, Hk.
  - rewrite Hs, Hb.
    assert (E : stringifyEntry <$> (Rec <$> imap (readCard (now s)) (c :: cards))
                = Rec <$> imap (readCard (now s)) (c :: cards)).
    { generalize (imap (readCard (now s)) (c :: cards)). intros ps.
      induction ps as [|p ps IH]; [done|]. cbn. by rewrite IH. }
    by rewrite E.
Qed.

Lemma seeding_one_record_per_card_witness :
  let s := fresh Unparsable (fun _ => true) 1700000000000
             (Some [cardHello; cardHello]) None None in
  let s' := exec initializeFromDOM s in
  length (blogs s') = 2
  /\ (forall k card,
        [cardHello; cardHello] !! k = Some card ->
        blogs s' !! k = Some (Rec (readCard (now s) k card))
        /\ id (readCard (now s) k card) = (now s + Z.of_nat k)%Z)
  /\ storage s' = Array (blogs s').
Proof.
  apply (seeding_one_record_per_card
           (fresh Unparsable (fun _ => true) 1700000000000
              (Some [cardHello; cardHello]) None None)
           cardHello [cardHello]).
  - intros e l H. discriminate.
  - reflexivity.
Defined.

(** Decimal numerals. *)
Lemma to_int_proper z :
  Z.to_int z <> Decimal.Pos Decimal.Nil /\ Z.to_int z <> Decimal.Neg Decimal.Nil.
Proof.
  destruct z as [|p|p]; cbn; split; try discriminate;
    intros [= H]; by apply Unsigned.to_uint_nonnil in H.
Qed.

Lemma numToString_inj a b : numToString a = numToString b -> a = b.
Proof.
  unfold numToString. intros H.
  apply (f_equal NilZero.int_of_string) in H.
  destruct (to_int_proper a) as [Ha1 Ha2], (to_int_proper b) as [Hb1 Hb2].
  rewrite !NilZero.isi in H by done.
  injection H as H. by apply DecimalZ.to_int_inj.
Qed.

Lemma numToString_truthy z : truthy (numToString z) = true.
Proof.
  unfold numToString, NilZero.string_of_int, NilZero.string_of_uint.
  destruct (Z.to_int z) as [d|d]; [|reflexivity]. by destruct d.
Qed.

Lemma findPost_finds ps p : forall s,
  NoDup (id <$> ps) -> p ∈ ps ->
  findPost (numToString (id p)) (Rec <$> ps) s = (Returned (Some p), s).
Proof.
  induction ps as [|q ps IH]; intros s Hnd Hin.
  - by apply elem_of_nil in Hin.
  - cbn [fmap list_fmap] in *. apply NoDup_cons in Hnd as [Hq Hnd].
    cbn [findPost].
    destruct (String.eqb_spec (numToString (id q)) (numToString (id p))) as [E|E].
    + apply numToString_inj in E. apply elem_of_cons in Hin as [->|Hin]; [done|].
      exfalso. apply Hq. rewrite E. by apply list_elem_of_fmap_2.
    + apply elem_of_cons in Hin as [->|Hin]; [done|]. by apply IH.
Qed.

Lemma findPost_misses ps q : forall s,
  Forall (fun p => numToString (id p) <> q) ps ->
  findPost q (Rec <$> ps) s = (Returned None, s).
Proof.
  induction ps as [|p ps IH]; intros s Hf; [reflexivity|].
  apply Forall_cons in Hf as [Hp Hf]. cbn [fmap list_fmap findPost].
  destruct (String.eqb_spec (numToString (id p)) q); [done|]. by apply IH.
Qed.

(** X17. On a page with [#singleBlog], over a store of records with distinct
    ids, the view asked for the id of a record of the store (as [String]
    writes it) shows that record, and changes nothing else. *)
Theorem single_view_finds s out ps p :
  singleBlog s = Some out ->
  blogs s = Rec <$> ps ->
  NoDup (id <$> ps) ->
  p ∈ ps ->
  renderSingleIfNeeded (Some (numToString (id p))) s
  = (Returned tt, set_singleBlog (Some (singleHtml p)) s).
Proof.
  intros Hout Hb Hnd Hin. unfold renderSingleIfNeeded, bind, gets, modify.
  rewrite Hout, numToString_truthy. cbn [negb].
  by rewrite Hb, findPost_finds.
Qed.

Lemma single_view_finds_witness :
  let s := set_singleBlog (Some EmptyString) (page [Rec postA; Rec postB] None) in
  renderSingleIfNeeded (Some (numToString (id postB))) s
  = (Returned tt, set_singleBlog (Some (singleHtml postB)) s).
Proof.
  apply (single_view_finds _ EmptyString [postA; postB] postB).
  - reflexivity.
  - reflexivity.
  - cbn. repeat constructor; intros H;
      repeat (apply elem_of_cons in H as [H|H]; [discriminate|]);
      by apply elem_of_nil in H.
  - by right; left.
Defined.

(** X18. The view shows "Post not found" when no id is asked for, when the id
    asked for is empty, and when no record of a store of records has that
    id as its decimal text; without [#singleBlog] it does nothing. *)
Theorem single_view_not_found s :
  (singleBlog s = None -> forall query,
      renderSingleIfNeeded query s = (Returned tt, s))
  /\ (forall out, singleBlog s = Some out ->
        renderSingleIfNeeded None s
        = (Returned tt, set_singleBlog (Some notFound) s)
        /\ renderSingleIfNeeded (Some EmptyString) s
           = (Returned tt, set_singleBlog (Some notFound) s)
        /\ forall ps q,
            blogs s = Rec <$> ps ->
            Forall (fun p => numToString (id p) <> q) ps ->
            renderSingleIfNeeded (Some q) s
            = (Returned tt, set_singleBlog (Some notFound) s)).
Proof.
  split.
  - intros Hn query. unfold renderSingleIfNeeded, bind, gets. by rewrite Hn.
  - intros out Hout. unfold renderSingleIfNeeded, bind, gets, modify.
    rewrite Hout. split; [done|]. split; [done|].
    intros ps q Hb Hf. destruct (negb (truthy q)); [done|].
    by rewrite Hb, findPost_misses.
Qed.

Lemma single_view_not_found_witness :
  let s := set_singleBlog (Some EmptyString) (page [Rec postA; Rec postB] None) in
  renderSingleIfNeeded (Some "02") s
  = (Returned tt, set_singleBlog (Some notFound) s)
  /\ renderSingleIfNeeded (Some "2") (page [Rec postA; Rec postB] None)
     = (Returned tt, page [Rec postA; Rec postB] None).
Proof.
  split.
  - destruct (single_view_not_found
                (set_singleBlog (Some EmptyString)
                   (page [Rec postA; Rec postB] None))) as [_ H].
    destruct (H EmptyString eq_refl) as (_ & _ & Hq).
    apply (Hq [postA; postB] "02"); [reflexivity|].
    repeat constructor; discriminate.
  - destruct (single_view_not_found (page [Rec postA; Rec postB] None)) as [H _].
    apply H. reflexivity.
Defined.

Lemma trimEnd_nonempty a t : isSpace a = false -> trimEnd (String a t) <> EmptyString.
Proof.
  intros Ha. cbn [trimEnd]. rewrite Ha. by destruct (trimEnd t).
Qed.

(** X19. The [Read More] link of a card always has a target: the record's own
    link when that has a character other than white space, and otherwise
    the single-post page with the record's id. *)
Theorem readHref_not_blank b :
  trim (readHref b) <> EmptyString
  /\ (readHref b = detailUrl b
      \/ trim (detailUrl b) = EmptyString
         /\ readHref b = "single.html?id=" +:+ numToString (id b)).
Proof.
  unfold readHref.
  destruct (truthy (detailUrl b)) eqn:T; cbn [andb].
  - destruct (String.eqb_spec (trim (detailUrl b)) EmptyString) as [E|E]; cbn [negb].
    + split; [|by right].
      change ("single.html?id=" +:+ ?x) with (String "s" ("ingle.html?id=" +:+ x)).
      unfold trim. cbn [trimStart]. change (isSpace "s") with false. cbn match.
      by apply trimEnd_nonempty.
    + split; [done|by left].
  - split.
    + change ("single.html?id=" +:+ ?x) with (String "s" ("ingle.html?id=" +:+ x)).
      unfold trim. cbn [trimStart]. change (isSpace "s") with false. cbn match.
      by apply trimEnd_nonempty.
    + right. split; [|done]. by destruct (detailUrl b).
Qed.

End Pages.

(** ** Further properties: the view follows the store *)

Module ViewSync.

Import Js JsFacts BlogCrud StoreFacts SeedFacts ListView Compose Expiry.
Local Open Scope js_scope.

Lemma rendered_view X o v c ps :
  renderBlogs X = (o, set_listView v X) ->
  blogList X = Some c ->
  blogs X = Rec <$> ps ->
  v = cardsFrom 0 ps.
Proof.
  intros Hr Hc Hb. rewrite (renderBlogs_records_run X ps Hb), Hc in Hr.
  injection Hr as _ Hr. by symmetry.
Qed.

Lemma showUndo_view d s :
  listView (exec (showUndo d) s) = listView s
  /\ blogs (exec (showUndo d) s) = blogs s.
Proof.
  unfold exec, showUndo, setTimeout, clearTimeout, bind, gets, modify, ret.
  destruct (undoMessage s); [|done]. simpl_state. by destruct (undoTimeout s).
Qed.

(** A handler whose write is taken renders the store it leaves. *)
Lemma step_viewSynced s e c :
  blogList s = Some c -> viewSynced s -> writeAccepted s e = true ->
  viewSynced (step s e).
Proof.
  intros Hc Hv Hw. destruct e as [f|i| |ms|h|ok]; unfold step, handler;
    cbn [writeAccepted] in Hw.
  - unfold exec, addBlog, bind, gets, modify. cbn beta iota zeta.
    rewrite save_run. simpl_state.
    unfold addAccepted, newBlog in Hw. unfold unshift. rewrite Hw.
    match goal with
    | |- context [renderBlogs ?s2] =>
        destruct (renderBlogs_run s2) as (o & v & Hr); rewrite Hr
    end.
    intros ps Hb. assert (E := rendered_view _ _ _ c ps Hr Hc).
    destruct o; cbn [snd] in *; simpl_state; by apply E.
  - destruct (Js.lt i (Int 0) || Js.ge i (Int (len (blogs s)))) eqn:G.
    { unfold exec. by rewrite deleteBlog_stop. }
    cbn [orb] in Hw.
    unfold exec. destruct (deleteBlog_pass i s G Hw) as (o & v & Hr & ->).
    intros ps Hb. assert (E := rendered_view _ _ _ c ps Hr Hc).
    destruct o; cbn [snd] in *.
    + destruct (showUndo_view (recentlyDeleted (afterSplice i s))
                  (set_listView v (afterSplice i s))) as [Hl Hbl].
      unfold exec in Hl, Hbl. rewrite Hl. rewrite Hbl in Hb. by apply E.
    + by apply E.
  - destruct (recentlyDeleted s) as [d|] eqn:Hd.
    + unfold exec, undoDelete, setDisplay, clearTimeout, bind, gets, modify, ret.
      rewrite Hd. cbn beta iota. fold (restored d s). rewrite save_run.
      unfold restoreAccepted in Hw. rewrite Hd in Hw.
      change (accepts (restored d s)) with (accepts s). rewrite Hw.
      cbn beta iota. unfold restored. simpl_state.
      destruct (undoMessage s);
        match goal with
        | |- context [renderBlogs ?s2] =>
            destruct (renderBlogs_run s2) as (o & v & Hr); rewrite Hr
        end;
        intros ps Hb; assert (E := rendered_view _ _ _ c ps Hr Hc);
        destruct o; simpl_state;
        try (destruct (undoTimeout s); cbn [snd] in *; simpl_state);
        by apply E.
    + unfold exec. by rewrite undoDelete_idle.
  - exact Hv.
  - unfold exec, fire, expire, setDisplay, clearTimeout, bind, gets, modify, ret.
    destruct (filter _ (timers s)); [exact Hv|].
    simpl_state. by destruct (undoMessage s).
  - exact Hv.
Qed.

Lemma run_viewSynced evs c : forall s,
  blogList s = Some c -> viewSynced s -> writesSucceed evs s ->
  viewSynced (run evs s).
Proof.
  induction evs as [|e evs IH]; intros s Hc Hv Hw; [done|].
  destruct Hw as [He Hw].
  cbn. apply IH; [by rewrite step_blogList|by eapply step_viewSynced|done].
Qed.

Lemma seedFromDOM_blogList s : blogList (snd (seedFromDOM s)) = blogList s.
Proof.
  unfold seedFromDOM, bind, gets, modify.
  destruct (blogList s) as [cards|] eqn:E; [|exact E].
  cbn beta iota. destruct (len cards =? 0)%Z; cbn beta iota; rewrite save_run;
    match goal with
    | |- context [if ?c then _ else _] => destruct c
    end; exact E.
Qed.

Lemma initializeFromDOM_blogList s :
  blogList (exec initializeFromDOM s) = blogList s.
Proof.
  unfold exec. rewrite initializeFromDOM_cases.
  pose proof (seedFromDOM_blogList s) as Hs.
  by destruct (storage s) as [| | | |[|e l]].
Qed.

(** The load returns when storage takes what the extraction writes. *)
Lemma initializeFromDOM_returns s :
  (forall l, accepts s l = true) -> fst (initializeFromDOM s) = Returned tt.
Proof.
  intros Hok. rewrite initializeFromDOM_cases.
  assert (Hs : fst (seedFromDOM s) = Returned tt).
  { unfold seedFromDOM, bind, gets, modify.
    destruct (blogList s) as [cards|]; [|reflexivity].
    cbn beta iota. destruct (len cards =? 0)%Z; cbn beta iota;
      rewrite save_run; simpl_state; by rewrite Hok. }
  by destruct (storage s) as [| | | |[|e l]].
Qed.

Lemma onLoad_viewSynced query s c :
  (forall l, accepts s l = true) ->
  blogList s = Some c ->
  viewSynced (exec (onLoad query) s) /\ blogList (exec (onLoad query) s) = Some c.
Proof.
  intros Hok Hc. pose proof (initializeFromDOM_blogList s) as Hbl.
  pose proof (initializeFromDOM_returns s Hok) as Hret.
  unfold exec in *. unfold onLoad, bind.
  destruct (initializeFromDOM s) as [o s1]. cbn [fst snd] in Hbl, Hret.
  rewrite Hc in Hbl. subst o.
  destruct (renderBlogs_run s1) as (o & v & Hr). rewrite Hr.
  assert (E := fun ps => rendered_view _ _ _ c ps Hr Hbl).
  destruct o.
  - destruct (renderSingleIfNeeded_run query (set_listView v s1)) as (o & w & ->).
    split; [|done]. intros ps Hb. by apply E.
  - split; [|done]. intros ps Hb. by apply E.
Qed.

(** X20. From a page load on, on a page with [#blogList], as long as
    storage takes every write the load and the handlers attempt, whenever
    the store holds records only, the view holds exactly their cards, in
    store order, the card at position [k] carrying display index [k]: a
    delete button always names the position its record has in the
    store. *)
Theorem view_shows_store st ok t c box single query evs ps :
  (forall l, ok l = true) ->
  let s0 := exec (onLoad query) (fresh st ok t (Some c) box single) in
  writesSucceed evs s0 ->
  let s := run evs s0 in
  blogs s = Rec <$> ps ->
  listView s = cardsFrom 0 ps
  /\ forall k p, ps !! k = Some p -> listView s !! k = Some (cardHtml p k).
Proof.
  intros Hok s0 Hw s Hb.
  destruct (onLoad_viewSynced query (fresh st ok t (Some c) box single) c Hok eq_refl)
    as [Hv Hc].
  pose proof (run_viewSynced evs c _ Hc Hv Hw ps Hb) as Hl.
  change (listView s = cardsFrom 0 ps) in Hl.
  split; [exact Hl|]. intros k p Hk. rewrite Hl. unfold cardsFrom.
  rewrite list_lookup_imap, Hk. done.
Qed.

Lemma view_shows_store_witness :
  let s := run [Add untitled; Delete (Int 1); Elapse 7000%N; Fire 1]
             (exec (onLoad None)
                (fresh (Array [Rec postA; Rec postB]) (fun _ => true)
                   1700000000000 (Some [cardHello]) (Some hiddenBox) None)) in
  listView s = cardsFrom 0 [mkPost 1700000000000 "Untitled" (Some EmptyString)
                              EmptyString EmptyString; postB]
  /\ forall k p,
      [mkPost 1700000000000 "Untitled" (Some EmptyString) EmptyString EmptyString;
       postB] !! k = Some p ->
      listView s !! k = Some (cardHtml p k).
Proof.
  apply (view_shows_store (Array [Rec postA; Rec postB]) (fun _ => true)
           1700000000000 [cardHello] (Some hiddenBox) None None
           [Add untitled; Delete (Int 1); Elapse 7000%N; Fire 1]).
  - reflexivity.
  - vm_compute. repeat split.
  - by vm_compute.
Defined.

(** When storage refuses the write of an add, the handler stops before it
    renders: the store has the new record, the view still shows the old
    list. *)
Example refused_add_leaves_view_stale :
  let s0 := exec (onLoad None)
              (fresh (Array [Rec postA]) (fun _ => false) 1700000000000
                 (Some [cardHello]) (Some hiddenBox) None) in
  let s := run [Add untitled] s0 in
  blogs s = [Rec (newBlog untitled 1700000000000); Rec postA]
  /\ listView s = cardsFrom 0 [postA]
  /\ storage s = Array [Rec postA].
Proof. by vm_compute. Qed.

End ViewSync.

(** ** Further properties: a restore cancels the expiry *)

Module UndoTimer.

Import Js JsFacts BlogCrud StoreFacts SeedFacts ListView Compose Expiry.
Local Open Scope js_scope.

(** A delete leaves [#undoMessage] on the page. *)
Lemma deleteBlog_keeps_box index s box :
  undoMessage s = Some box ->
  exists box', undoMessage (exec (deleteBlog index) s) = Some box'.
Proof.
  intros Hbox.
  destruct (Js.lt index (Int 0) || Js.ge index (Int (len (blogs s)))) eqn:G.
  { unfold exec. rewrite deleteBlog_stop by done. by exists box. }
  unfold exec. destruct (deleteAccepted index s) eqn:Hw.
  - destruct (deleteBlog_pass index s G Hw) as (o & v & _ & ->).
    destruct o; [|by exists box].
    unfold showUndo, setTimeout, clearTimeout, bind, gets, modify, ret,
      afterSplice, spliced.
    simpl_state. rewrite Hbox. simpl_state.
    destruct (undoTimeout s); by eexists.
  - rewrite deleteBlog_reject by done. by exists box.
Qed.

(** A restore whose write is taken, on a page with the box, when the
    store it rebuilds holds records only. *)
Lemma undoDelete_with_box s d box ps :
  recentlyDeleted s = Some d ->
  undoMessage s = Some box ->
  oneTimer s ->
  blogs (restored d s) = Rec <$> ps ->
  accepts s (Rec <$> ps) = true ->
  let s2 := exec undoDelete s in
  blogs s2 = Rec <$> ps
  /\ storage s2 = Array (Rec <$> ps)
  /\ recentlyDeleted s2 = None
  /\ timers s2 = []
  /\ undoTimeout s2 = None
  /\ display <$> undoMessage s2 = Some "none".
Proof.
  intros Hd Hbox H1 Hb Hw s2. pose proof (oneTimer_cases s H1) as Hc.
  unfold s2, exec, undoDelete, setDisplay, clearTimeout, bind, gets, modify, ret.
  rewrite Hd. cbn beta iota. fold (restored d s). rewrite save_run.
  change (accepts (restored d s)) with (accepts s).
  rewrite Hb, stringify_id, Hw. cbn beta iota.
  change (undoMessage (set_recentlyDeleted None
                         (set_storage (Array (Rec <$> ps)) (restored d s))))
    with (undoMessage s).
  rewrite Hbox.
  match goal with
  | |- context [renderBlogs ?X] =>
      rewrite (renderBlogs_records_run X ps Hb)
  end.
  change (blogList (set_undoMessage _ _)) with (blogList s).
  destruct (blogList s); cbn beta iota; simpl_state;
    change (undoTimeout (restored d s)) with (undoTimeout s);
    change (timers (restored d s)) with (timers s);
    destruct (undoTimeout s) eqn:E; cbn [snd]; simpl_state;
    rewrite ?Hc; repeat split; try exact Hb; try exact Hc; exact E.
Qed.

(** X21. On a page with [#undoMessage] and a store of records, [undoDelete]
    right after a delete at a valid index, when storage takes the write of
    the restore, brings back the store and the persisted list, hides the
    box and cancels the expiry: no timer is left that could empty a later
    slot. This holds whether the write of the delete was taken or
    refused. *)
Theorem undo_cancels_expiry s box ps z :
  undoMessage s = Some box ->
  oneTimer s ->
  blogs s = Rec <$> ps ->
  (0 <= z < len (blogs s))%Z ->
  accepts s (stringifyEntry <$> blogs s) = true ->
  let s2 := exec undoDelete (exec (deleteBlog (Int z)) s) in
  blogs s2 = blogs s
  /\ storage s2 = Array (blogs s)
  /\ recentlyDeleted s2 = None
  /\ timers s2 = []
  /\ undoTimeout s2 = None
  /\ display <$> undoMessage s2 = Some "none".
Proof.
  intros Hbox H1 Hb Hz Hw s2.
  destruct (lookup_valid _ _ Hz) as [r Hr].
  destruct (deleteBlog_valid s z r Hz Hr) as (Hb1 & Hd1).
  destruct (deleteBlog_keeps_box (Int z) s box Hbox) as [box' Hbox1].
  pose proof (step_oneTimer s (Delete (Int z)) H1) as H11.
  unfold step, handler in H11.
  pose proof (accepts_deleteBlog (Int z) s) as Ha1.
  set (s1 := exec (deleteBlog (Int z)) s) in *.
  assert (Hrest : blogs (restored (mkDeleted r (Int z)) s1) = Rec <$> ps).
  { unfold restored. simpl_state. cbn [index blog]. rewrite Hb1.
    assert (Hlen : len (delete (Z.to_nat z) (blogs s)) = (len (blogs s) - 1)%Z).
    { unfold len in *. rewrite length_delete by by eexists. lia. }
    rewrite restore_splice by lia. by rewrite reinsert_deleted. }
  rewrite Hb, stringify_id in Hw. rewrite <- Ha1 in Hw.
  rewrite Hb.
  apply (undoDelete_with_box s1 _ box' ps Hd1 Hbox1 H11 Hrest Hw).
Qed.

Lemma undo_cancels_expiry_witness :
  let s := page [Rec postA; Rec postB] (Some hiddenBox) in
  let s2 := exec undoDelete (exec (deleteBlog (Int 1)) s) in
  blogs s2 = blogs s
  /\ storage s2 = Array (blogs s)
  /\ recentlyDeleted s2 = None
  /\ timers s2 = []
  /\ undoTimeout s2 = None
  /\ display <$> undoMessage s2 = Some "none".
Proof.
  apply (undo_cancels_expiry (page [Rec postA; Rec postB] (Some hiddenBox))
           hiddenBox [postA; postB] 1); [reflexivity..| |reflexivity].
  unfold len. cbn. lia.
Defined.

(** When storage refuses the write of the restore, [undoDelete] stops at
    [save]: the box stays shown and the expiry stays scheduled, with the
    record back in the store and still in the slot. *)
Example refused_restore_keeps_expiry :
  let s1 := exec (deleteBlog (Int 0)) (page [Rec postA; Rec postB] (Some hiddenBox)) in
  let s2 := run [Storage (fun _ => false); Undo] s1 in
  blogs s2 = [Rec postA; Rec postB]
  /\ recentlyDeleted s2 = Some (mkDeleted (Rec postA) (Int 0))
  /\ timers s2 = [mkTimer 1 1700000006000]
  /\ display <$> undoMessage s2 = Some "block"
  /\ storage s2 = Array [Rec postB].
Proof. by vm_compute. Qed.

End UndoTimer.
